(** * Landseek-Amphibian: the JNI bridge that starts the embedded Node.js

    A shallow embedding of [android/app/src/main/cpp/native-lib.cpp], the
    single native method
    [Java_com_landseek_amphibian_service_AmphibianNative_startNode], together
    with the parts of its environment that the method relies on:

    - the C [int] type (32 bits, two's complement),
    - the native heap with block-based pointers,
    - [std::string] (with its small-string buffer) and [std::vector],
    - the four JNI functions the method calls through [JNIEnv],
    - the Android log and the entry point [node::Start] of the runtime.

    The method is written in a state-and-failure monad over a [World]; a
    run either completes with a value or runs into an operation whose
    behaviour is undefined. *)

From Stdlib Require Import ZArith Lia List String Ascii DecimalString.
From Stdlib.Strings Require Import Byte.
From stdpp Require Import base option list gmap.
From Equations Require Import Equations.
From Equations.Prop Require Import Logic.
From Stdlib Require DecimalZ DecimalPos.
Import ListNotations.

Local Open Scope Z_scope.

(** ** The C type [int] (and JNI's [jint], [jsize]) *)

Module Int32.

Definition min_signed : Z := -2147483648.
Definition max_signed : Z := 2147483647.
Definition modulus : Z := 4294967296.

Definition in_range (z : Z) : bool := (min_signed <=? z) && (z <=? max_signed).

(** Two's complement wrap-around of a mathematical integer. *)
Definition wrap (z : Z) : Z := (z - min_signed) mod modulus + min_signed.

Record int : Type := mkint { signed : Z; signed_range : in_range signed = true }.

Lemma wrap_range (z : Z) : in_range (wrap z) = true.
Proof.
  unfold in_range, wrap, min_signed, max_signed, modulus.
  pose proof (Z.mod_pos_bound (z - -2147483648) 4294967296 eq_refl).
  apply andb_true_intro; split; apply Z.leb_le; lia.
Qed.

Definition repr (z : Z) : int := mkint (wrap z) (wrap_range z).

Lemma in_range_bounds (z : Z) :
  in_range z = true <-> min_signed <= z <= max_signed.
Proof.
  unfold in_range. rewrite andb_true_iff, !Z.leb_le. reflexivity.
Qed.

Lemma wrap_small (z : Z) : min_signed <= z <= max_signed -> wrap z = z.
Proof.
  unfold wrap, min_signed, max_signed, modulus. intros H.
  rewrite Z.mod_small by lia. lia.
Qed.

Lemma signed_bounds (i : int) : min_signed <= signed i <= max_signed.
Proof. apply in_range_bounds, signed_range. Qed.

Lemma signed_repr (z : Z) : min_signed <= z <= max_signed -> signed (repr z) = z.
Proof. apply wrap_small. Qed.

Definition zero : int := repr 0.

(** [i++] *)
Definition incr (i : int) : int := repr (signed i + 1).

(** [a < b] *)
Definition lt (a b : int) : bool := signed a <? signed b.

End Int32.

Abbreviation int := Int32.int.

(** [printf]'s [%d] conversion of an [int]. *)
Definition fmt_d (n : int) : string := NilZero.string_of_int (Z.to_int (Int32.signed n)).

(** ** Native memory *)

#[global] Instance byte_eq_decision : EqDecision byte := byte_eq_dec.

Definition block := positive.

Inductive ptr : Type :=
| NULL
| Ptr (b : block) (ofs : nat).

(** A [std::string] object.  Up to [sso_capacity] characters are kept in a
    buffer inside the object itself, longer texts in a heap block that the
    object owns. *)
Inductive std_string : Type :=
| Short (chars : list byte)
| Long (buf : block).

(** An element slot of a vector's storage. *)
Inductive cell : Type :=
| CStr (s : std_string)
| CPtr (p : ptr).

(** What a heap block holds: a [char] array, or the constructed elements of
    a vector's storage. *)
Inductive hobj : Type :=
| Chars (bytes : list byte)
| Slots (elems : list cell).

Abbreviation memory := (gmap block hobj).

(** The bytes before the first NUL of a byte sequence, as [strlen] sees
    them; nothing when there is no NUL. *)
Fixpoint cstr_prefix (bs : list byte) : option (list byte) :=
  match bs with
  | [] => None
  | c :: rest =>
      if byte_eq_dec c x00 then Some []
      else match cstr_prefix rest with
           | Some s => Some (c :: s)
           | None => None
           end
  end.

(** The bytes readable from a [char*]: the rest of a [char] array, or the
    inline buffer of the short string in slot [ofs] of a vector's storage
    (its characters and the terminator). *)
Definition load_bytes (h : memory) (p : ptr) : option (list byte) :=
  match p with
  | NULL => None
  | Ptr b ofs =>
      match h !! b with
      | Some (Chars bs) => if (ofs <=? length bs)%nat then Some (drop ofs bs) else None
      | Some (Slots l) =>
          match l !! ofs with
          | Some (CStr (Short bs)) => Some (bs ++ [x00])
          | _ => None
          end
      | None => None
      end
  end.

(** The C string a [char*] points to. *)
Definition load_cstr (h : memory) (p : ptr) : option (list byte) :=
  match load_bytes h p with
  | Some bs => cstr_prefix bs
  | None => None
  end.

(** ** JNI *)

Inductive jobject : Type :=
| jnull
| jref (handle : positive).

(** The function table behind [JNIEnv*], restricted to what the bridge
    calls.  [J] is the state of the Java heap.  [StringUTFChars] is the
    modified UTF-8 text that [GetStringUTFChars] hands out for a reference,
    or nothing when it returns a null pointer.  The two laws are JNI's: an
    array length is a count, and modified UTF-8 has no embedded NUL. *)
Record JNIEnv (J : Type) : Type := {
  GetArrayLength : J -> jobject -> int;
  GetObjectArrayElement : J -> jobject -> int -> jobject;
  StringUTFChars : J -> jobject -> option (list byte);
  GetArrayLength_nonneg : forall j a, 0 <= Int32.signed (GetArrayLength j a);
  StringUTFChars_no_NUL : forall j s bs, StringUTFChars j s = Some bs -> x00 ∉ bs
}.
Arguments GetArrayLength {J}.
Arguments GetObjectArrayElement {J}.
Arguments StringUTFChars {J}.
Arguments GetArrayLength_nonneg {J}.
Arguments StringUTFChars_no_NUL {J}.

(** ** Observable events *)

Inductive event : Type :=
| EvGetArrayLength (array : jobject)
| EvGetObjectArrayElement (array : jobject) (index : int)
| EvGetStringUTFChars (s : jobject)
| EvReleaseStringUTFChars (s : jobject) (chars : ptr)
| EvLog (prio : Z) (tag msg : string)
| EvStart (argc : int) (argv : ptr) (mem : memory).

Definition is_log (e : event) : bool :=
  match e with EvLog _ _ _ => true | _ => false end.

Definition is_start (e : event) : bool :=
  match e with EvStart _ _ _ => true | _ => false end.


(** ** Worlds, outcomes and the monad *)

Record World (J R : Type) : Type := mkWorld {
  java : J;               (* the Java heap *)
  runtime : R;            (* the embedded runtime's own state *)
  heap : memory;          (* the native heap *)
  trace : list event      (* what the bridge has done so far *)
}.
Arguments mkWorld {J R}.
Arguments java {J R}.
Arguments runtime {J R}.
Arguments heap {J R}.
Arguments trace {J R}.

(** A run completes with a value in a final world, or stops in the world
    in which it attempts an operation whose behaviour is undefined. *)
Inductive outcome (W A : Type) : Type :=
| Done (a : A) (w : W)
| Undefined (w : W).
Arguments Done {W A}.
Arguments Undefined {W A}.

Definition result_of {W A} (o : outcome W A) : option A :=
  match o with Done a _ => Some a | Undefined _ => None end.

Definition M (W A : Type) : Type := W -> outcome W A.

Definition ret {W A} (a : A) : M W A := fun w => Done a w.

Definition bind {W A B} (c : M W A) (k : A -> M W B) : M W B :=
  fun w => match c w with
           | Done a w' => k a w'
           | Undefined w' => Undefined w'
           end.

Definition undefined {W A} : M W A := fun w => Undefined w.

Notation "'let*' x ':=' c 'in' k" := (bind c (fun x => k))
  (at level 10, x name, c at level 100, k at level 200).
Notation "c '>>' k" := (bind c (fun _ => k))
  (at level 90, right associativity).

(** ** The bridge *)

Section Bridge.

Context {J R : Type}.

(** The [JNIEnv* env] the method is called with. *)
Variable env : JNIEnv J.

(** [int node::Start(int argc, char** argv)], declared in [node.h]: an
    external collaborator.  It reads the native memory it is handed and
    evolves the runtime's own state. *)
Variable node_Start : int -> ptr -> memory -> R -> int * R.

(** Two constants of the C++ library: how many characters a
    [std::string] keeps inline, and the capacity a vector of capacity [c]
    asks for when it has to grow. *)
Variable sso_capacity : nat.
Variable grow : nat -> nat.

Abbreviation W := (World J R).
Abbreviation M := (M W).

(** *** Primitive effects *)

Definition emit (e : event) : M unit :=
  fun w => Done tt (mkWorld (java w) (runtime w) (heap w) (trace w ++ [e])).

Definition read_heap : M memory :=
  fun w => Done (heap w) w.

(** [operator new]: a block that is not live. *)
Definition malloc (o : hobj) : M block :=
  fun w => let b := fresh (dom (heap w)) in
           Done b (mkWorld (java w) (runtime w) (<[b := o]> (heap w)) (trace w)).

(** [operator delete]: releasing a block that is not live is undefined. *)
Definition free_block (b : block) : M unit :=
  fun w => match heap w !! b with
           | Some _ => Done tt (mkWorld (java w) (runtime w) (delete b (heap w)) (trace w))
           | None => Undefined w
           end.

Definition store (b : block) (o : hobj) : M unit :=
  fun w => match heap w !! b with
           | Some _ => Done tt (mkWorld (java w) (runtime w) (<[b := o]> (heap w)) (trace w))
           | None => Undefined w
           end.

(** *** [std::string] *)

(** [std::string(const char* s)]: copies [strlen(s)] characters; a null
    or unterminated [s] is undefined. *)
Definition string_ctor (s : ptr) : M std_string :=
  let* h := read_heap in
  match load_cstr h s with
  | None => undefined
  | Some bs =>
      if (length bs <=? sso_capacity)%nat then ret (Short bs)
      else let* b := malloc (Chars (bs ++ [x00])) in ret (Long b)
  end.

(** [~basic_string()] of the string in a slot. *)
Definition string_dtor (c : cell) : M unit :=
  match c with
  | CStr (Long b) => free_block b
  | _ => ret tt
  end.

(** *** [std::vector] *)

(** The vector object itself: its data pointer and its capacity.  Its
    size is the number of constructed elements in its storage. *)
Record vector : Type := mkvector { v_data : ptr; v_cap : nat }.

(** A default-constructed vector owns no storage. *)
Definition vector_empty : vector := mkvector NULL 0.

Definition vector_slots (h : memory) (v : vector) : option (list cell) :=
  match v_data v with
  | NULL => Some []
  | Ptr b O =>
      match h !! b with
      | Some (Slots l) => Some l
      | _ => None
      end
  | Ptr _ (S _) => None
  end.

(** [v.push_back(c)]: constructs in place while there is room; otherwise
    takes new storage, moves the elements over and releases the old
    storage. *)
Definition push_back (v : vector) (c : cell) : M vector :=
  let* h := read_heap in
  match vector_slots h v with
  | None => undefined
  | Some l =>
      if (length l <? v_cap v)%nat then
        match v_data v with
        | Ptr b _ => store b (Slots (l ++ [c])) >> ret v
        | NULL => undefined
        end
      else
        let* b' := malloc (Slots (l ++ [c])) in
        match v_data v with
        | Ptr b _ => free_block b
        | NULL => ret tt
        end >>
        ret (mkvector (Ptr b' 0) (Nat.max (grow (v_cap v)) (S (length l))))
  end.

(** [v[i].c_str()] for a vector of strings: a pointer into the string
    object for a short string, to its heap buffer for a long one. *)
Definition c_str (v : vector) (i : int) : M ptr :=
  let* h := read_heap in
  match v_data v, vector_slots h v with
  | Ptr b _, Some l =>
      match l !! Z.to_nat (Int32.signed i) with
      | Some (CStr (Short _)) => ret (Ptr b (Z.to_nat (Int32.signed i)))
      | Some (CStr (Long b')) => ret (Ptr b' 0)
      | _ => undefined
      end
  | _, _ => undefined
  end.

Fixpoint destroy_cells (l : list cell) : M unit :=
  match l with
  | [] => ret tt
  | c :: rest => string_dtor c >> destroy_cells rest
  end.

(** [~vector()]: destroys the elements, then releases the storage. *)
Definition vector_dtor (v : vector) : M unit :=
  let* h := read_heap in
  match vector_slots h v with
  | None => undefined
  | Some l =>
      destroy_cells l >>
      match v_data v with
      | Ptr b _ => free_block b
      | NULL => ret tt
      end
  end.

(** *** The JNI calls *)

Definition JNI_GetArrayLength (array : jobject) : M int :=
  emit (EvGetArrayLength array) >>
  fun w => Done (GetArrayLength env (java w) array) w.

Definition JNI_GetObjectArrayElement (array : jobject) (index : int) : M jobject :=
  emit (EvGetObjectArrayElement array index) >>
  fun w => Done (GetObjectArrayElement env (java w) array index) w.

(** Hands out a fresh NUL-terminated copy of the text, or a null
    pointer. *)
Definition JNI_GetStringUTFChars (s : jobject) : M ptr :=
  emit (EvGetStringUTFChars s) >>
  fun w => match StringUTFChars env (java w) s with
           | Some bs => (let* b := malloc (Chars (bs ++ [x00])) in ret (Ptr b 0)) w
           | None => Done NULL w
           end.

Definition JNI_ReleaseStringUTFChars (s : jobject) (chars : ptr) : M unit :=
  emit (EvReleaseStringUTFChars s chars) >>
  match chars with
  | Ptr b O => free_block b
  | _ => undefined
  end.

(** *** Logging and the runtime *)

Definition TAG : string := "AmphibianJNI".

(** The priority [ANDROID_LOG_DEBUG] of [android/log.h]. *)
Definition ANDROID_LOG_DEBUG : Z := 3.

(** [LOGD(...)], that is [__android_log_print(ANDROID_LOG_DEBUG, TAG, ...)],
    given the formatted message. *)
Definition LOGD (msg : string) : M unit := emit (EvLog ANDROID_LOG_DEBUG TAG msg).

(** The call [node::Start(argc, argv)]; the event records the arguments
    and the native memory the runtime is entered with. *)
Definition call_node_Start (argc : int) (argv : ptr) : M int :=
  fun w => let '(r, rt) := node_Start argc argv (heap w) (runtime w) in
           Done r (mkWorld (java w) rt (heap w)
                           (trace w ++ [EvStart argc argv (heap w)])).

(** *** Loops *)

(** [for (int i = start; i < argc; i++) body], threading the variables
    the body assigns. *)
Equations? for_loop {St : Type} (argc i : int) (body : int -> St -> M St)
    (s : St) (w : W) : outcome W St
    by wf (Z.to_nat (Int32.signed argc - Int32.signed i)) lt :=
  for_loop argc i body s w with inspect (Int32.lt i argc) := {
    | exist _ true Hlt :=
        match body i s w with
        | Done s' w' => for_loop argc (Int32.incr i) body s' w'
        | Undefined w' => Undefined w'
        end
    | exist _ false _ := Done s w }.
Proof.
  apply Z.ltb_lt in Hlt.
  pose proof (Int32.signed_bounds argc). pose proof (Int32.signed_bounds i).
  rewrite Int32.wrap_small; unfold Int32.min_signed, Int32.max_signed in *; lia.
Qed.

(** *** The native method *)

(** Body of the first loop (lines 23-26): fetch the element, obtain its
    characters, append a [std::string] copy to [args], give the
    characters back. *)
Definition convert_body (arguments : jobject) (i : int) (args : vector) : M vector :=
  let* string := JNI_GetObjectArrayElement arguments i in
  let* rawString := JNI_GetStringUTFChars string in
  let* tmp := string_ctor rawString in
  let* args' := push_back args (CStr tmp) in
  JNI_ReleaseStringUTFChars string rawString >>
  ret args'.

(** Body of the second loop (line 31). *)
Definition argv_body (args : vector) (i : int) (argv : vector) : M vector :=
  let* p := c_str args i in
  push_back argv (CPtr p).

(** Lines 17-32: the array length, and the two loops that fill [args] and
    [argv]. *)
Definition marshal (arguments : jobject) : M (int * vector * vector) :=
  let* argc := JNI_GetArrayLength arguments in
  let* args := for_loop argc Int32.zero (convert_body arguments) vector_empty in
  let* argv := for_loop argc Int32.zero (argv_body args) vector_empty in
  ret (argc, args, argv).

(** Lines 34-38 and the end of the scope: the two log lines around the
    call of the runtime, the destructors of [argv] and [args] (in reverse
    order of declaration), and the result. *)
Definition invoke (argc : int) (args argv : vector) : M int :=
  LOGD "Starting Embedded Node.js..." >>
  let* result := call_node_Start argc (v_data argv) in
  LOGD ("Node.js exited with code: " ++ fmt_d result) >>
  vector_dtor argv >>
  vector_dtor args >>
  ret result.

Definition Java_com_landseek_amphibian_service_AmphibianNative_startNode
    (this arguments : jobject) : M int :=
  let* m := marshal arguments in
  invoke m.1.1 m.1.2 m.2.

(** *** The loops in closed form *)

(** [n] rounds of a loop body, the counter starting at [i]. *)
Fixpoint rounds {St : Type} (n : nat) (i : int) (body : int -> St -> M St) (s : St)
    : M St :=
  match n with
  | O => ret s
  | S n' => let* s' := body i s in rounds n' (Int32.incr i) body s'
  end.

(** Number of rounds of [for (int i = 0; i < argc; i++)]. *)
Definition trip_count (argc : int) : nat := Z.to_nat (Z.max (Int32.signed argc) 0).

End Bridge.

Abbreviation startNode := Java_com_landseek_amphibian_service_AmphibianNative_startNode.


(** ** Vocabulary of the properties *)

(** The storage block of a vector, if it has one. *)
Definition storage (v : vector) : list block :=
  match v_data v with
  | Ptr b _ => [b]
  | NULL => []
  end.

Arguments storage : simpl never.

(** The heap buffers owned by the strings in a list of slots. *)
Fixpoint long_blocks (l : list cell) : list block :=
  match l with
  | [] => []
  | CStr (Long b) :: rest => b :: long_blocks rest
  | _ :: rest => long_blocks rest
  end.

(** Slot [c] is a [std::string] with text [bs]. *)
Definition str_holds (sso_capacity : nat) (h : memory) (c : cell) (bs : list byte) : Prop :=
  match c with
  | CStr (Short s) => s = bs /\ (length bs <= sso_capacity)%nat
  | CStr (Long b) => h !! b = Some (Chars (bs ++ [x00])) /\ (sso_capacity < length bs)%nat
  | CPtr _ => False
  end.

(** What [v[i].c_str()] evaluates to in memory [h]. *)
Definition c_str_ptr (h : memory) (v : vector) (i : nat) : option ptr :=
  match v_data v, vector_slots h v with
  | Ptr b _, Some l =>
      match l !! i with
      | Some (CStr (Short _)) => Some (Ptr b i)
      | Some (CStr (Long b')) => Some (Ptr b' 0%nat)
      | _ => None
      end
  | _, _ => None
  end.

(** Slot [i] of the array a [char**] points to. *)
Definition load_ptr (h : memory) (argv : ptr) (i : nat) : option ptr :=
  match argv with
  | Ptr b O =>
      match h !! b with
      | Some (Slots l) => match l !! i with Some (CPtr p) => Some p | _ => None end
      | _ => None
      end
  | _ => None
  end.

(** The C strings behind the first [n] slots of [argv]. *)
Definition argv_strings (mem : memory) (argv : ptr) (n : nat) : list (option (list byte)) :=
  map (fun i => match load_ptr mem argv i with
                | Some p => load_cstr mem p
                | None => None
                end) (seq 0 n).

Definition is_element_fetch (e : event) : bool :=
  match e with EvGetObjectArrayElement _ _ => true | _ => false end.

(** [args] holds the texts [bss] in memory [h], which is [h0] plus the
    blocks that [args] and its strings own. *)
Record args_state (sso_capacity : nat) (h0 h : memory) (args : vector)
    (l : list cell) (bss : list (list byte)) : Prop := {
  args_slots : vector_slots h args = Some l;
  args_cap : v_data args = NULL -> v_cap args = 0%nat;
  args_texts : Forall2 (str_holds sso_capacity h) l bss;
  args_nodup : NoDup (storage args ++ long_blocks l);
  args_fresh : forall b, b ∈ storage args ++ long_blocks l -> h0 !! b = None;
  args_frame : forall b, b ∉ storage args ++ long_blocks l -> h !! b = h0 !! b
}.

(** [argv] holds the pointers [ps] in memory [h], which is [h1] plus the
    storage of [argv]. *)
Record argv_state (h1 h : memory) (argv : vector) (ps : list ptr) : Prop := {
  argv_slots : vector_slots h argv = Some (map CPtr ps);
  argv_cap : v_data argv = NULL -> v_cap argv = 0%nat;
  argv_fresh : forall b, b ∈ storage argv -> h1 !! b = None;
  argv_frame : forall b, b ∉ storage argv -> h !! b = h1 !! b
}.

Section Vocabulary.

Context {J : Type} (env : JNIEnv J).

(** Element [i] of the Java array, and the text JNI hands out for it. *)
Definition element (j : J) (arguments : jobject) (i : nat) : jobject :=
  GetObjectArrayElement env j arguments (Int32.repr (Z.of_nat i)).

Definition text (j : J) (arguments : jobject) (i : nat) : option (list byte) :=
  StringUTFChars env j (element j arguments i).

(** The texts of all elements, in order. *)
Definition texts (j : J) (arguments : jobject) : list (option (list byte)) :=
  map (text j arguments) (seq 0 (trip_count (GetArrayLength env j arguments))).

(** Every element retrieval succeeds, and [bss] are the texts. *)
Definition convertible (j : J) (arguments : jobject) (bss : list (list byte)) : Prop :=
  texts j arguments = map Some bss.

(** The events of the first loop, for elements [i], [i+1], ... whose
    characters were handed out at [ps]. *)
Fixpoint convert_trace (j : J) (arguments : jobject) (i : nat) (ps : list ptr) : list event :=
  match ps with
  | [] => []
  | p :: rest =>
      EvGetObjectArrayElement arguments (Int32.repr (Z.of_nat i))
      :: EvGetStringUTFChars (element j arguments i)
      :: EvReleaseStringUTFChars (element j arguments i) p
      :: convert_trace j arguments (S i) rest
  end.

(** What holds after [k] rounds of the first loop started in [w], on
    elements with the texts [bss]. *)
Definition convert_inv {R : Type} (sso_capacity : nat) (arguments : jobject)
    (w : World J R) (bss : list (list byte))
    (k : nat) (args : vector) (w1 : World J R) : Prop :=
  java w1 = java w /\ runtime w1 = runtime w /\
  exists l jps,
    length jps = k /\
    trace w1 = trace w ++ convert_trace (java w) arguments 0 jps /\
    args_state sso_capacity (heap w) (heap w1) args l (take k bss).

End Vocabulary.

(** The marshalled arguments: [args] holds the texts in memory [mem],
    [argv] the pointers to them, and [mem] is [h0] plus the blocks the two
    vectors own. *)
Definition marshalled (sso_capacity : nat) (h0 mem : memory) (args argv : vector)
    (bss : list (list byte)) : Prop :=
  exists h1 l ps,
    args_state sso_capacity h0 h1 args l bss /\
    argv_state h1 mem argv ps /\
    length ps = length bss /\
    (forall i p, ps !! i = Some p -> c_str_ptr h1 args i = Some p) /\
    (bss = [] -> args = vector_empty /\ argv = vector_empty).

(** ** A small Java heap *)

(** Java objects as far as the bridge can tell them apart: strings, given
    by their modified UTF-8 text, and arrays of references. *)
Inductive jvalue : Type :=
| JString (utf : list byte)
| JArray (elems : list jobject).

Module SampleJVM.

Definition jheap := gmap positive jvalue.

Definition deref (j : jheap) (o : jobject) : option jvalue :=
  match o with
  | jnull => None
  | jref r => j !! r
  end.

Definition array_length (j : jheap) (a : jobject) : int :=
  match deref j a with
  | Some (JArray l) => Int32.repr (Z.of_nat (length l) mod (Int32.max_signed + 1))
  | _ => Int32.zero
  end.

(** Out of bounds, the call yields no reference. *)
Definition array_element (j : jheap) (a : jobject) (i : int) : jobject :=
  match deref j a with
  | Some (JArray l) =>
      if Int32.signed i <? 0 then jnull
      else match l !! Z.to_nat (Int32.signed i) with
           | Some o => o
           | None => jnull
           end
  | _ => jnull
  end.

(** Text with a NUL in it is not modified UTF-8. *)
Definition utf_chars (j : jheap) (s : jobject) : option (list byte) :=
  match deref j s with
  | Some (JString bs) => if decide (x00 ∈ bs) then None else Some bs
  | _ => None
  end.

Lemma array_length_nonneg j a : 0 <= Int32.signed (array_length j a).
Proof.
  unfold array_length.
  destruct (deref j a) as [[bs|l]|]; [discriminate| |discriminate].
  pose proof (Z.mod_pos_bound (Z.of_nat (length l)) (Int32.max_signed + 1) eq_refl).
  rewrite Int32.signed_repr; unfold Int32.min_signed, Int32.max_signed in *; lia.
Qed.

Lemma utf_chars_no_NUL j s bs : utf_chars j s = Some bs -> x00 ∉ bs.
Proof.
  unfold utf_chars. destruct (deref j s) as [[b|l]|]; try discriminate.
  destruct (decide (x00 ∈ b)); [discriminate|]. intros [= <-]. assumption.
Qed.

Definition env : JNIEnv jheap := {|
  GetArrayLength := array_length;
  GetObjectArrayElement := array_element;
  StringUTFChars := utf_chars;
  GetArrayLength_nonneg := array_length_nonneg;
  StringUTFChars_no_NUL := utf_chars_no_NUL
|}.

(** A runtime that answers with the number of arguments it can read
    plus the number of times it was started before. *)
Definition readable_args (argv : ptr) (h : memory) : list cell :=
  match argv with
  | Ptr b O => match h !! b with Some (Slots l) => l | _ => [] end
  | _ => []
  end.

Definition count_Start (argc : int) (argv : ptr) (h : memory) (started : nat) : int * nat :=
  (Int32.repr (Z.of_nat (length (readable_args argv h)) + Z.of_nat started), S started).

(** The heap with the array [["--flag", "value"]] at reference 1. *)
Definition flag_value : jheap :=
  <[1%positive := JArray [jref 2; jref 3]]>
  (<[2%positive := JString (list_byte_of_string "--flag")]>
  (<[3%positive := JString (list_byte_of_string "value")]> ∅)).

Definition world0 (j : jheap) : World jheap nat := mkWorld j O ∅ [].

(** The inline capacity and the growth policy of libc++ on a 64-bit
    target. *)
Definition sso : nat := 22.
Definition double (c : nat) : nat := (2 * c)%nat.

(** The arguments of a typical start at reference 1: the program name and
    a script path that does not fit the inline buffer. *)
Definition script_path : list byte :=
  list_byte_of_string "/data/data/com.landseek.amphibian/files/bridge/index.js".

Definition node_script : jheap :=
  <[1%positive := JArray [jref 2; jref 3]]>
  (<[2%positive := JString (list_byte_of_string "node")]>
  (<[3%positive := JString script_path]> ∅)).

(** An array whose second element is [null]. *)
Definition null_element : jheap :=
  <[1%positive := JArray [jref 2; jnull]]>
  (<[2%positive := JString (list_byte_of_string "node")]> ∅).

(** The empty array. *)
Definition no_arguments : jheap := <[1%positive := JArray []]> ∅.

(** A runtime whose result is determined by the strings it is handed: the
    number of characters in them. *)
Definition length_Start (argc : int) (argv : ptr) (h : memory) (started : nat) : int * nat :=
  (Int32.repr (Z.of_nat (length (concat (omap id (argv_strings h argv (trip_count argc)))))),
   S started).

(** The array of [flag_value] at other references, in a world with native
    blocks in use, a runtime started before, and a history. *)
Definition flag_value' : jheap :=
  <[7%positive := JArray [jref 9; jref 8]]>
  (<[9%positive := JString (list_byte_of_string "--flag")]>
  (<[8%positive := JString (list_byte_of_string "value")]> ∅)).

Definition world1 : World jheap nat :=
  mkWorld flag_value' 3%nat
    (<[1%positive := Chars [x41; x00]]> (<[2%positive := Slots []]> ∅))
    [EvGetArrayLength (jref 7)].

End SampleJVM.


(** ** Runs and their events *)

(** The world a run ends in: the final world of a run that completes,
    the world in which an undefined operation is attempted otherwise. *)
Definition final_world {W A} (o : outcome W A) : W :=
  match o with Done _ w => w | Undefined w => w end.

(** The element fetches among some events: which array, which index. *)
Definition fetched (e : event) : option (jobject * Z) :=
  match e with
  | EvGetObjectArrayElement a i => Some (a, Int32.signed i)
  | _ => None
  end.

Definition is_get_chars (e : event) : bool :=
  match e with EvGetStringUTFChars _ => true | _ => false end.

Definition is_release_chars (e : event) : bool :=
  match e with EvReleaseStringUTFChars _ _ => true | _ => false end.


(** * Properties *)

(** ** Machine integers *)

Lemma Int32_eq (a b : int) : Int32.signed a = Int32.signed b -> a = b.
Proof.
  destruct a as [x Hx], b as [y Hy]. cbn. intros ->.
  f_equal. apply Eqdep_dec.UIP_dec, Bool.bool_dec.
Qed.

Lemma wrap_wrap_succ (z : Z) : Int32.wrap (Int32.wrap z + 1) = Int32.wrap (z + 1).
Proof.
  unfold Int32.wrap, Int32.min_signed, Int32.modulus.
  f_equal.
  replace ((z - -2147483648) mod 4294967296 + -2147483648 + 1 - -2147483648)
    with ((z - -2147483648) mod 4294967296 + 1) by lia.
  replace (z + 1 - -2147483648) with ((z - -2147483648) + 1) by lia.
  rewrite Zplus_mod_idemp_l. reflexivity.
Qed.

Lemma incr_repr (z : Z) : Int32.incr (Int32.repr z) = Int32.repr (z + 1).
Proof. apply Int32_eq. cbn. apply wrap_wrap_succ. Qed.

Lemma signed_repr_nat (k : nat) :
  Z.of_nat k <= Int32.max_signed -> Int32.signed (Int32.repr (Z.of_nat k)) = Z.of_nat k.
Proof.
  intros H. apply Int32.signed_repr. unfold Int32.min_signed. lia.
Qed.

Lemma trip_count_bound (argc : int) : Z.of_nat (trip_count argc) <= Int32.max_signed.
Proof.
  unfold trip_count. pose proof (Int32.signed_bounds argc).
  unfold Int32.min_signed, Int32.max_signed in *. lia.
Qed.

(** ** The loops *)

Section Loops.

Context {J R St : Type}.
Abbreviation LW := (World J R).

Lemma for_loop_step (argc i : int) (body : int -> St -> M LW St) s w :
  for_loop argc i body s w =
  if Int32.lt i argc then
    match body i s w with
    | Done s' w' => for_loop argc (Int32.incr i) body s' w'
    | Undefined w' => Undefined w'
    end
  else Done s w.
Proof.
  funelim (for_loop argc i body s w);
    match goal with H : Int32.lt _ _ = _ |- _ => rewrite H end; reflexivity.
Qed.

(** The loop makes [argc - i] rounds when [i < argc], none otherwise. *)
Lemma for_loop_rounds_from (argc : int) (body : int -> St -> M LW St) (n : nat) :
  forall (i : int) s w,
    n = Z.to_nat (Int32.signed argc - Int32.signed i) ->
    for_loop argc i body s w = rounds n i body s w.
Proof.
  induction n as [|n IH]; intros i s w Hn; rewrite for_loop_step; unfold Int32.lt.
  - destruct (Z.ltb_spec (Int32.signed i) (Int32.signed argc)); [lia | reflexivity].
  - destruct (Z.ltb_spec (Int32.signed i) (Int32.signed argc)); [| lia].
    cbn [rounds]. unfold bind. destruct (body i s w) as [s' w'|w']; [| reflexivity].
    apply IH. unfold Int32.incr.
    pose proof (Int32.signed_bounds argc). pose proof (Int32.signed_bounds i).
    rewrite Int32.signed_repr; lia.
Qed.

Lemma for_loop_rounds (argc : int) (body : int -> St -> M LW St) s w :
  for_loop argc Int32.zero body s w = rounds (trip_count argc) Int32.zero body s w.
Proof.
  apply for_loop_rounds_from. unfold trip_count.
  change (Int32.signed Int32.zero) with 0. lia.
Qed.

(** Invariant rule for a run of rounds whose counter starts at [k]. *)
Lemma rounds_invariant (I : nat -> St -> LW -> Prop) (body : int -> St -> M LW St) (n : nat) :
  forall (k : nat) s w,
    I k s w ->
    (forall j s w, (k <= j < k + n)%nat -> I j s w ->
       exists s' w', body (Int32.repr (Z.of_nat j)) s w = Done s' w' /\ I (S j) s' w') ->
    exists s' w',
      rounds n (Int32.repr (Z.of_nat k)) body s w = Done s' w' /\ I (k + n)%nat s' w'.
Proof.
  induction n as [|n IH]; intros k s w HI Hstep.
  - exists s, w. rewrite Nat.add_0_r. split; [reflexivity | assumption].
  - destruct (Hstep k s w ltac:(lia) HI) as (s1 & w1 & Hb & HI1).
    destruct (IH (S k) s1 w1 HI1) as (s2 & w2 & Hr & HI2).
    { intros j s' w' Hj. apply Hstep. lia. }
    exists s2, w2. split.
    + cbn [rounds]. unfold bind. rewrite Hb, incr_repr.
      replace (Z.of_nat k + 1) with (Z.of_nat (S k)) by lia. exact Hr.
    + replace (k + S n)%nat with (S k + n)%nat by lia. exact HI2.
Qed.

(** A round with undefined behaviour makes the whole run undefined, in
    the world in which that round stops. *)
Lemma rounds_undefined (I : nat -> St -> LW -> Prop) (Q : LW -> Prop)
    (body : int -> St -> M LW St) (n : nat) :
  forall (k f : nat) s w,
    (k <= f < k + n)%nat ->
    I k s w ->
    (forall j s w, (k <= j < f)%nat -> I j s w ->
       exists s' w', body (Int32.repr (Z.of_nat j)) s w = Done s' w' /\ I (S j) s' w') ->
    (forall s w, I f s w ->
       exists w', body (Int32.repr (Z.of_nat f)) s w = Undefined w' /\ Q w') ->
    exists w', rounds n (Int32.repr (Z.of_nat k)) body s w = Undefined w' /\ Q w'.
Proof.
  induction n as [|n IH]; intros k f s w Hf HI Hstep Hbad; [lia |].
  cbn [rounds]. unfold bind.
  destruct (decide (k = f)) as [->|Hne].
  - destruct (Hbad s w HI) as (w' & -> & HQ). eauto.
  - destruct (Hstep k s w ltac:(lia) HI) as (s1 & w1 & Hb & HI1).
    rewrite Hb, incr_repr.
    replace (Z.of_nat k + 1) with (Z.of_nat (S k)) by lia.
    apply (IH (S k) f); [lia | assumption | | assumption].
    intros j s' w' Hj. apply Hstep. lia.
Qed.

End Loops.

(** ** Memory and the primitive effects *)

Lemma fresh_block_unused (h : memory) : h !! fresh (dom h) = None.
Proof. apply not_elem_of_dom, is_fresh. Qed.

Lemma storage_spec (v : vector) (x : block) :
  x ∈ storage v <-> exists o, v_data v = Ptr x o.
Proof.
  unfold storage. destruct (v_data v) as [|b o].
  - split; [intros H; inversion H | intros [o [=]]].
  - rewrite list_elem_of_singleton. split; [intros ->; eauto | intros [o' [= ->]]; reflexivity].
Qed.

Lemma vector_slots_storage (h : memory) (v : vector) (l : list cell) (b : block) :
  vector_slots h v = Some l -> b ∈ storage v ->
  v_data v = Ptr b 0%nat /\ h !! b = Some (Slots l).
Proof.
  intros Hs [o Hv]%storage_spec. unfold vector_slots in Hs. rewrite Hv in *.
  destruct o; [| discriminate].
  destruct (h !! b) as [[|l']|]; try discriminate.
  injection Hs as ->. auto.
Qed.

Section Effects.

Context {J R : Type}.
Abbreviation EW := (World J R).
Variable grow : nat -> nat.

(** [push_back] appends the element; the storage afterwards is the old
    one or a block that was not live, and an abandoned storage is
    released.  Nothing else changes. *)
Lemma push_back_spec (v : vector) (c : cell) (w : EW) (l : list cell) :
  vector_slots (heap w) v = Some l ->
  (v_data v = NULL -> v_cap v = 0%nat) ->
  exists v' w',
    push_back grow v c w = Done v' w' /\
    java w' = java w /\ runtime w' = runtime w /\ trace w' = trace w /\
    vector_slots (heap w') v' = Some (l ++ [c]) /\
    (exists b', v_data v' = Ptr b' 0%nat) /\
    (forall x, x ∉ storage v -> x ∉ storage v' -> heap w' !! x = heap w !! x) /\
    (forall x, x ∈ storage v' -> x ∈ storage v \/ heap w !! x = None) /\
    (forall x, x ∈ storage v -> x ∈ storage v' \/ heap w' !! x = None).
Proof.
  intros Hs Hcap. unfold push_back, bind, read_heap. rewrite Hs.
  destruct (Nat.ltb_spec (length l) (v_cap v)) as [Hlt|Hge].
  - (* room left *)
    destruct (v_data v) as [|b o] eqn:Hv.
    { rewrite Hcap in Hlt by reflexivity. lia. }
    destruct (vector_slots_storage _ _ _ b Hs) as [Hv' Hb].
    { apply storage_spec. eauto. }
    rewrite Hv in Hv'. injection Hv' as ->.
    unfold store, ret. rewrite Hb. eexists _, _. split; [reflexivity |]. cbn.
    repeat split.
    + unfold vector_slots. rewrite Hv, lookup_insert_eq. reflexivity.
    + eauto.
    + intros x Hx _. apply lookup_insert_ne. intros ->. apply Hx, storage_spec. eauto.
    + auto.
    + auto.
  - (* reallocation *)
    unfold malloc. cbn.
    pose proof (fresh_block_unused (heap w)) as Hfresh.
    set (b' := fresh (dom (heap w))) in *.
    destruct (v_data v) as [|b o] eqn:Hv.
    + unfold ret. eexists _, _. split; [reflexivity |]. cbn.
      repeat split.
      * unfold vector_slots. cbn. rewrite lookup_insert_eq. reflexivity.
      * eauto.
      * intros x _ Hx. apply lookup_insert_ne. intros ->. apply Hx, storage_spec. cbn. eauto.
      * intros x [o [= <-]]%storage_spec. auto.
      * intros x [o Hx]%storage_spec. congruence.
    + destruct (vector_slots_storage _ _ _ b Hs) as [Hv' Hb].
      { apply storage_spec. eauto. }
      assert (b <> b') as Hne by congruence.
      unfold free_block, ret. cbn. rewrite lookup_insert_ne, Hb by congruence.
      eexists _, _. split; [reflexivity |]. cbn.
      repeat split.
      * unfold vector_slots. cbn.
        rewrite lookup_delete_ne, lookup_insert_eq by congruence. reflexivity.
      * eauto.
      * intros x Hx Hx'.
        rewrite lookup_delete_ne, lookup_insert_ne; [reflexivity | |].
        -- intros ->. apply Hx', storage_spec. cbn. eauto.
        -- intros ->. apply Hx, storage_spec. eauto.
      * intros x [o' [= <-]]%storage_spec. auto.
      * intros x [o' Hx]%storage_spec. rewrite Hv in Hx. injection Hx as <- <-.
        right. apply lookup_delete_eq.
Qed.

End Effects.

(** ** C strings *)

Lemma cstr_prefix_terminated (bs rest : list byte) :
  x00 ∉ bs -> cstr_prefix (bs ++ x00 :: rest) = Some bs.
Proof.
  induction bs as [|c bs IH]; intros Hnul; cbn [cstr_prefix app].
  - reflexivity.
  - destruct (byte_eq_dec c x00) as [->|Hc].
    + exfalso. apply Hnul. left.
    + rewrite IH; [reflexivity |]. intros Hin. apply Hnul. right. exact Hin.
Qed.

(** ** The state of [args] *)

Lemma long_blocks_app (l1 l2 : list cell) :
  long_blocks (l1 ++ l2) = long_blocks l1 ++ long_blocks l2.
Proof.
  induction l1 as [|[[s|b]|p] l1 IH]; cbn; congruence.
Qed.

Lemma long_blocks_live sso (h : memory) (l : list cell) (bss : list (list byte)) (b : block) :
  Forall2 (str_holds sso h) l bss -> b ∈ long_blocks l ->
  exists bs, h !! b = Some (Chars (bs ++ [x00])).
Proof.
  induction 1 as [|c bs l bss Hc _ IH]; cbn; [intros H; inversion H |].
  destruct c as [[s|b']|p]; cbn in Hc; [assumption | | contradiction].
  intros [->|Hin]%elem_of_cons; [| auto]. destruct Hc. eauto.
Qed.

Lemma str_holds_frame sso (h h' : memory) (c : cell) (bs : list byte) :
  (forall b, b ∈ long_blocks [c] -> h' !! b = h !! b) ->
  str_holds sso h c bs -> str_holds sso h' c bs.
Proof.
  destruct c as [[s|b]|p]; cbn; auto.
  intros Hf [Hb Hlen]. split; [| assumption]. rewrite Hf; [assumption | left].
Qed.

Lemma texts_frame sso (h h' : memory) (l : list cell) (bss : list (list byte)) :
  (forall b, b ∈ long_blocks l -> h' !! b = h !! b) ->
  Forall2 (str_holds sso h) l bss -> Forall2 (str_holds sso h') l bss.
Proof.
  intros Hf H. induction H as [|c bs l bss Hc _ IH]; constructor.
  - eapply str_holds_frame; [| exact Hc].
    intros b Hb. apply Hf. change (c :: l) with ([c] ++ l).
    rewrite long_blocks_app. apply elem_of_app. auto.
  - apply IH. intros b Hb. apply Hf. change (c :: l) with ([c] ++ l).
    rewrite long_blocks_app. apply elem_of_app. auto.
Qed.

Lemma vector_slots_frame (h h' : memory) (v : vector) :
  (forall b, b ∈ storage v -> h' !! b = h !! b) ->
  vector_slots h' v = vector_slots h v.
Proof.
  intros Hf. unfold vector_slots. destruct (v_data v) as [|b [|o]] eqn:Hv; try reflexivity.
  rewrite Hf; [reflexivity |]. apply storage_spec. eauto.
Qed.

Lemma args_state_live sso (h0 h : memory) args l bss (b : block) :
  args_state sso h0 h args l bss -> b ∈ storage args ++ long_blocks l -> is_Some (h !! b).
Proof.
  intros [Hs _ Ht _ _ _] [Hb|Hb]%elem_of_app.
  - destruct (vector_slots_storage _ _ _ _ Hs Hb) as [_ ->]. eauto.
  - destruct (long_blocks_live _ _ _ _ _ Ht Hb) as [bs ->]. eauto.
Qed.

Lemma args_state_unused sso (h0 h : memory) args l bss (b : block) :
  args_state sso h0 h args l bss -> h !! b = None ->
  (b ∉ storage args ++ long_blocks l) /\ h0 !! b = None.
Proof.
  intros Hst Hb.
  assert (b ∉ storage args ++ long_blocks l) as Hnot.
  { intros Hin. destruct (args_state_live _ _ _ _ _ _ _ Hst Hin) as [o Ho]. congruence. }
  split; [assumption |]. rewrite <- (args_frame _ _ _ _ _ _ Hst b Hnot). assumption.
Qed.

(** One round of the first loop keeps [args] well-formed: [jb] is the
    buffer JNI handed out (released at the end of the round), [h2] the
    memory once the new string [c] has been constructed, [h3] the memory
    after [push_back]. *)
Lemma args_state_push sso (h0 h h2 h3 : memory) (args args' : vector)
    (l : list cell) (bss : list (list byte)) (c : cell) (bs : list byte) (jb : block) :
  args_state sso h0 h args l bss ->
  h !! jb = None ->
  is_Some (h2 !! jb) ->
  (forall x, x ≠ jb -> x ∉ long_blocks [c] -> h2 !! x = h !! x) ->
  (forall x, x ∈ long_blocks [c] -> h !! x = None /\ x ≠ jb) ->
  str_holds sso h2 c bs ->
  vector_slots h3 args' = Some (l ++ [c]) ->
  (exists b', v_data args' = Ptr b' 0%nat) ->
  (forall x, x ∉ storage args -> x ∉ storage args' -> h3 !! x = h2 !! x) ->
  (forall x, x ∈ storage args' -> x ∈ storage args \/ h2 !! x = None) ->
  (forall x, x ∈ storage args -> x ∈ storage args' \/ h3 !! x = None) ->
  args_state sso h0 (delete jb h3) args' (l ++ [c]) (bss ++ [bs]).
Proof.
  intros Hst Hjb Hjb2 Hh2 Hc Hholds Hslots [b' Hb'] Hkeep Hnew Hold.
  pose proof (args_state_unused _ _ _ _ _ _ _ Hst Hjb) as [Hjb_own Hjb0].
  assert (forall x, x ∈ long_blocks [c] -> is_Some (h2 !! x)) as Hc_live.
  { intros x Hx. destruct (long_blocks_live sso h2 [c] [bs] x) as [s ->]; eauto. }
  assert (forall x, x ∈ long_blocks [c] ->
            (x ∉ storage args ++ long_blocks l) /\ h0 !! x = None) as Hc_own.
  { intros x Hx. apply (args_state_unused _ _ _ _ _ _ _ Hst), Hc, Hx. }
  assert (forall x, x ∈ storage args ++ long_blocks l -> h2 !! x = h !! x) as Hh2_own.
  { intros x Hx. apply Hh2.
    - intros ->. contradiction.
    - intros Hxc. apply Hc_own in Hxc as [Hxc _]. contradiction. }
  assert (forall x, x ∈ storage args' ->
            (x ∈ storage args \/ (h !! x = None /\ (x ∉ storage args ++ long_blocks l)))
            /\ x ≠ jb /\ (x ∉ long_blocks [c]) /\ (x ∉ long_blocks l)) as Hb'_facts.
  { intros x Hx. destruct (Hnew x Hx) as [Hin|Hnone].
    - assert (x ∈ storage args ++ long_blocks l) as Hown by (apply elem_of_app; auto).
      repeat split.
      + auto.
      + intros ->. contradiction.
      + intros Hxc. apply Hc_own in Hxc as [Hxc _]. contradiction.
      + intros HxL. pose proof (args_nodup _ _ _ _ _ _ Hst) as Hnd.
        apply NoDup_app in Hnd as (_ & Hdisj & _). exact (Hdisj x Hin HxL).
    - assert (x ≠ jb) as Hne.
      { intros ->. destruct Hjb2 as [o Ho]. congruence. }
      assert (x ∉ long_blocks [c]) as Hnc.
      { intros Hxc. destruct (Hc_live x Hxc) as [o Ho]. congruence. }
      assert (h !! x = None) as Hx0 by (rewrite <- Hh2; assumption).
      pose proof (args_state_unused _ _ _ _ _ _ _ Hst Hx0) as [Hnot _].
      repeat split; auto.
      intros HxL. apply Hnot, elem_of_app. auto. }
  assert (storage args' = [b']) as Hsto by (unfold storage; rewrite Hb'; reflexivity).
  destruct Hst as [Hs Hcap Ht Hnd Hfr Hframe].
  apply NoDup_app in Hnd as (Hnd_s & Hdisj & Hnd_l).
  split.
  - rewrite <- Hslots. apply vector_slots_frame.
    intros b Hb. apply lookup_delete_ne. intros ->.
    destruct (Hb'_facts _ Hb) as (_ & Hne & _). congruence.
  - rewrite Hb'. discriminate.
  - apply Forall2_app.
    + eapply texts_frame; [| exact Ht].
      intros b Hb.
      assert (b ∈ storage args ++ long_blocks l) as Hown by (apply elem_of_app; auto).
      rewrite lookup_delete_ne by (intros ->; contradiction).
      rewrite Hkeep, Hh2_own; auto.
      * intros Hbs. exact (Hdisj b Hbs Hb).
      * intros Hbs. destruct (Hb'_facts _ Hbs) as (_ & _ & _ & HnL). contradiction.
    + constructor; [| constructor].
      eapply str_holds_frame; [| exact Hholds].
      intros b Hb. destruct (Hc_own b Hb) as [Hnot _]. destruct (Hc b Hb) as [_ Hne].
      rewrite lookup_delete_ne by congruence.
      apply Hkeep.
      * intros Hbs. apply Hnot, elem_of_app. auto.
      * intros Hbs. destruct (Hb'_facts _ Hbs) as (_ & _ & Hnc & _). contradiction.
  - rewrite long_blocks_app, Hsto. apply NoDup_app. repeat split.
    + apply NoDup_singleton.
    + intros x ->%list_elem_of_singleton Hx.
      destruct (Hb'_facts b') as (_ & _ & Hnc & HnL); [rewrite Hsto; left |].
      apply elem_of_app in Hx as [Hx|Hx]; contradiction.
    + apply NoDup_app. repeat split; [assumption | |].
      * intros x HxL Hxc. destruct (Hc_own x Hxc) as [Hnot _].
        apply Hnot, elem_of_app. auto.
      * destruct c as [[s|b]|p]; cbn; try apply NoDup_nil_2. apply NoDup_singleton.
  - rewrite long_blocks_app. intros b [Hb|[Hb|Hb]%elem_of_app]%elem_of_app.
    + destruct (Hb'_facts _ Hb) as ([Hin|[Hnone Hnot]] & _).
      * apply Hfr, elem_of_app. auto.
      * rewrite <- Hframe; assumption.
    + apply Hfr, elem_of_app. auto.
    + apply Hc_own, Hb.
  - rewrite long_blocks_app. intros b Hb.
    destruct (decide (b = jb)) as [->|Hne].
    { rewrite lookup_delete_eq. symmetry. assumption. }
    rewrite lookup_delete_ne by congruence.
    assert (b ∉ storage args') as Hb1 by (intros H; apply Hb, elem_of_app; auto).
    assert (b ∉ long_blocks l) as Hb2.
    { intros H; apply Hb, elem_of_app; right; apply elem_of_app; auto. }
    assert (b ∉ long_blocks [c]) as Hb3.
    { intros H; apply Hb, elem_of_app; right; apply elem_of_app; auto. }
    destruct (decide (b ∈ storage args)) as [Hin|Hnin].
    + destruct (Hold b Hin) as [?|Hnone]; [contradiction |].
      rewrite Hnone. symmetry. apply Hfr, elem_of_app. auto.
    + rewrite Hkeep, Hh2 by assumption. apply Hframe.
      intros [?|?]%elem_of_app; contradiction.
Qed.

(** ** The first loop *)

Section Convert.

Context {J R : Type}.
Variable env : JNIEnv J.
Variable sso_capacity : nat.
Variable grow : nat -> nat.
Abbreviation CW := (World J R).

(** A round of the first loop on an element whose text JNI hands out. *)
Lemma convert_body_spec (arguments : jobject) (k : nat) (args : vector) (w : CW)
    (h0 : memory) (l : list cell) (bss : list (list byte)) (bs : list byte) :
  args_state sso_capacity h0 (heap w) args l bss ->
  text env (java w) arguments k = Some bs ->
  exists args' w' c p,
    convert_body env sso_capacity grow arguments (Int32.repr (Z.of_nat k)) args w
      = Done args' w' /\
    java w' = java w /\ runtime w' = runtime w /\
    trace w' = trace w ++ convert_trace env (java w) arguments k [p] /\
    args_state sso_capacity h0 (heap w') args' (l ++ [c]) (bss ++ [bs]).
Proof.
  intros Hst Htext.
  pose proof (StringUTFChars_no_NUL env _ _ _ Htext) as Hnul.
  unfold text, element in Htext.
  unfold convert_body, JNI_GetObjectArrayElement, JNI_GetStringUTFChars, bind, emit.
  cbn [java heap trace runtime]. rewrite Htext.
  unfold malloc, ret. cbn [java heap trace runtime].
  pose proof (fresh_block_unused (heap w)) as Hjb.
  set (jb := fresh (dom (heap w))) in *.
  unfold string_ctor, bind, read_heap, load_cstr, load_bytes. cbn [java heap trace runtime].
  rewrite lookup_insert_eq. cbn [Nat.leb]. rewrite drop_0.
  rewrite cstr_prefix_terminated by assumption.
  set (ev := (trace w ++ _) ++ _).
  assert (forall h2 : memory,
            (forall x, x ∈ storage args ++ long_blocks l -> h2 !! x = heap w !! x) ->
            vector_slots h2 args = Some l) as Hslots2.
  { intros h2 Hh2. rewrite <- (args_slots _ _ _ _ _ _ Hst). apply vector_slots_frame.
    intros b Hb. apply Hh2, elem_of_app. auto. }
  assert (jb ∉ storage args ++ long_blocks l) as Hjb_own
    by apply (args_state_unused _ _ _ _ _ _ _ Hst Hjb).
  destruct (Nat.leb_spec (length bs) sso_capacity) as [Hlen|Hlen].
  - (* the text fits the inline buffer *)
    unfold ret.
    set (wA := mkWorld _ _ _ _).
    destruct (push_back_spec grow args (CStr (Short bs)) wA l)
      as (args' & w3 & Hpb & Hj3 & Hr3 & Ht3 & Hs3 & Hd3 & Hkeep & Hnew & Hold).
    { apply Hslots2. intros x Hx. apply lookup_insert_ne. congruence. }
    { apply (args_cap _ _ _ _ _ _ Hst). }
    rewrite Hpb.
    assert (heap w3 !! jb = Some (Chars (bs ++ [x00]))) as Hjb3.
    { rewrite Hkeep.
      - apply lookup_insert_eq.
      - intros H. apply Hjb_own, elem_of_app. auto.
      - intros H. destruct (Hnew jb H) as [H'|H'].
        + apply Hjb_own, elem_of_app. auto.
        + cbn in H'. rewrite lookup_insert_eq in H'. discriminate. }
    unfold JNI_ReleaseStringUTFChars, bind, emit, free_block. cbn [java heap trace runtime].
    rewrite Hjb3.
    eexists args', _, (CStr (Short bs)), (Ptr jb 0%nat).
    split; [reflexivity |]. cbn [java heap trace runtime].
    rewrite Hj3, Hr3, Ht3. subst wA ev. cbn [java heap trace runtime convert_trace].
    split; [reflexivity |]. split; [reflexivity |]. split.
    + rewrite <- !app_assoc. reflexivity.
    + eapply (args_state_push _ h0 (heap w) (<[jb:=Chars (bs ++ [x00])]> (heap w)));
        try eassumption.
      * rewrite lookup_insert_eq. eauto.
      * intros x Hx _. apply lookup_insert_ne. congruence.
      * intros x Hx. inversion Hx.
      * cbn. auto.
  - (* the text needs a heap buffer *)
    unfold malloc, ret. cbn [java heap trace runtime].
    pose proof (fresh_block_unused (<[jb:=Chars (bs ++ [x00])]> (heap w))) as Hsb.
    set (sb := fresh (dom (<[jb:=Chars (bs ++ [x00])]> (heap w)))) in *.
    assert (sb ≠ jb) as Hne.
    { intros Heq. rewrite Heq, lookup_insert_eq in Hsb. discriminate. }
    assert (heap w !! sb = None) as Hsb0.
    { rewrite lookup_insert_ne in Hsb by congruence. assumption. }
    assert (sb ∉ storage args ++ long_blocks l) as Hsb_own
      by apply (args_state_unused _ _ _ _ _ _ _ Hst Hsb0).
    set (wA := mkWorld _ _ _ _).
    destruct (push_back_spec grow args (CStr (Long sb)) wA l)
      as (args' & w3 & Hpb & Hj3 & Hr3 & Ht3 & Hs3 & Hd3 & Hkeep & Hnew & Hold).
    { apply Hslots2. intros x Hx. cbn.
      rewrite !lookup_insert_ne by congruence. reflexivity. }
    { apply (args_cap _ _ _ _ _ _ Hst). }
    rewrite Hpb.
    assert (heap wA !! jb = Some (Chars (bs ++ [x00]))) as HjbA.
    { cbn. rewrite lookup_insert_ne, lookup_insert_eq by congruence. reflexivity. }
    assert (heap w3 !! jb = Some (Chars (bs ++ [x00]))) as Hjb3.
    { rewrite Hkeep; [assumption | |].
      - intros H. apply Hjb_own, elem_of_app. auto.
      - intros H. destruct (Hnew jb H) as [H'|H'].
        + apply Hjb_own, elem_of_app. auto.
        + congruence. }
    unfold JNI_ReleaseStringUTFChars, bind, emit, free_block. cbn [java heap trace runtime].
    rewrite Hjb3.
    eexists args', _, (CStr (Long sb)), (Ptr jb 0%nat).
    split; [reflexivity |]. cbn [java heap trace runtime].
    rewrite Hj3, Hr3, Ht3. cbn [java heap trace runtime convert_trace].
    split; [reflexivity |]. split; [reflexivity |]. split.
    + subst wA ev. cbn [trace]. rewrite <- !app_assoc. reflexivity.
    + eapply (args_state_push _ h0 (heap w) (heap wA)); try eassumption.
      * eauto.
      * intros x Hx Hxc. cbn. rewrite !lookup_insert_ne; [reflexivity | congruence |].
        intros ->. apply Hxc. left.
      * intros x ->%list_elem_of_singleton. auto.
      * cbn. rewrite lookup_insert_eq. auto.
Qed.

(** A round on an element for which JNI hands out a null pointer stops
    at the construction of the [std::string]. *)
Lemma convert_body_undefined (arguments : jobject) (k : nat) (args : vector) (w : CW) :
  text env (java w) arguments k = None ->
  convert_body env sso_capacity grow arguments (Int32.repr (Z.of_nat k)) args w
  = Undefined (mkWorld (java w) (runtime w) (heap w)
                 (trace w ++
                  [EvGetObjectArrayElement arguments (Int32.repr (Z.of_nat k));
                   EvGetStringUTFChars (element env (java w) arguments k)])).
Proof.
  intros Htext. unfold text, element in Htext.
  unfold convert_body, JNI_GetObjectArrayElement, JNI_GetStringUTFChars, bind, emit.
  cbn [java heap trace runtime]. rewrite Htext.
  unfold string_ctor, bind, read_heap, undefined. cbn.
  rewrite <- app_assoc. reflexivity.
Qed.

Lemma convert_trace_snoc (j : J) (arguments : jobject) (ps : list ptr) (p : ptr) :
  forall i,
    convert_trace env j arguments i (ps ++ [p]) =
    convert_trace env j arguments i ps ++ convert_trace env j arguments (i + length ps) [p].
Proof.
  induction ps as [|q ps IH]; intros i; cbn [convert_trace app length].
  - rewrite Nat.add_0_r. reflexivity.
  - rewrite IH. replace (S i + length ps)%nat with (i + S (length ps))%nat by lia.
    reflexivity.
Qed.

Lemma args_state_empty (h0 : memory) : args_state sso_capacity h0 h0 vector_empty [] [].
Proof.
  split.
  - reflexivity.
  - reflexivity.
  - constructor.
  - apply NoDup_nil_2.
  - intros b Hb. inversion Hb.
  - reflexivity.
Qed.

Lemma convertible_length (j : J) (arguments : jobject) (bss : list (list byte)) :
  convertible env j arguments bss ->
  length bss = trip_count (GetArrayLength env j arguments).
Proof.
  unfold convertible, texts. intros H.
  apply (f_equal (@length _)) in H. rewrite !length_map, length_seq in H. auto.
Qed.

Lemma map_seq_lookup {A} (f : nat -> option A) (n : nat) :
  forall (k : nat) (l : list A),
    map f (seq k n) = map Some l ->
    forall i x, l !! i = Some x -> f (k + i)%nat = Some x.
Proof.
  induction n as [|n IH]; intros k [|y l]; cbn; try discriminate.
  intros [= Hy Hrest] [|i] x; cbn.
  - intros [= <-]. rewrite Nat.add_0_r. assumption.
  - intros Hi. replace (k + S i)%nat with (S k + i)%nat by lia. eapply IH; eassumption.
Qed.

Lemma convertible_text (j : J) (arguments : jobject) (bss : list (list byte)) (i : nat)
    (bs : list byte) :
  convertible env j arguments bss -> bss !! i = Some bs ->
  text env j arguments i = Some bs.
Proof.
  intros H Hi. exact (map_seq_lookup _ _ _ _ H i bs Hi).
Qed.


Lemma convert_inv_init (arguments : jobject) (w : CW) (bss : list (list byte)) :
  convert_inv env sso_capacity arguments w bss 0 vector_empty w.
Proof.
  split; [reflexivity |]. split; [reflexivity |].
  exists [], []. split; [reflexivity |]. split.
  - cbn. rewrite app_nil_r. reflexivity.
  - apply args_state_empty.
Qed.

Lemma convert_inv_step (arguments : jobject) (w : CW) (bss : list (list byte))
    (k : nat) (args : vector) (w1 : CW) :
  (forall i bs, bss !! i = Some bs -> text env (java w) arguments i = Some bs) ->
  (k < length bss)%nat ->
  convert_inv env sso_capacity arguments w bss k args w1 ->
  exists args' w',
    convert_body env sso_capacity grow arguments (Int32.repr (Z.of_nat k)) args w1
      = Done args' w' /\
    convert_inv env sso_capacity arguments w bss (S k) args' w'.
Proof.
  intros Htexts Hk (Hj & Hr & l & jps & Hlen & Htr & Hst).
  destruct (lookup_lt_is_Some_2 bss k Hk) as [bs Hbs].
  destruct (convert_body_spec arguments k args w1 (heap w) l (take k bss) bs Hst)
    as (args' & w' & c & p & Hbody & Hj' & Hr' & Htr' & Hst').
  { rewrite Hj. auto. }
  exists args', w'. split; [exact Hbody |].
  split; [congruence |]. split; [congruence |].
  exists (l ++ [c]), (jps ++ [p]). split; [| split].
  - rewrite length_app. cbn. lia.
  - rewrite Htr', Htr, Hj, convert_trace_snoc, Hlen, app_assoc. reflexivity.
  - rewrite (take_S_r _ _ _ Hbs). exact Hst'.
Qed.

(** The first loop, on an array whose elements can all be retrieved. *)
Lemma convert_rounds_spec (arguments : jobject) (w : CW) (bss : list (list byte)) :
  convertible env (java w) arguments bss ->
  exists args w1 l jps,
    rounds (length bss) Int32.zero (convert_body env sso_capacity grow arguments)
      vector_empty w = Done args w1 /\
    java w1 = java w /\ runtime w1 = runtime w /\
    length jps = length bss /\
    trace w1 = trace w ++ convert_trace env (java w) arguments 0 jps /\
    args_state sso_capacity (heap w) (heap w1) args l bss.
Proof.
  intros Hconv.
  destruct (rounds_invariant (convert_inv env sso_capacity arguments w bss)
              (convert_body env sso_capacity grow arguments)
              (length bss) 0 vector_empty w) as (args & w1 & Hrun & HI).
  - apply convert_inv_init.
  - intros k args w1 Hk. apply convert_inv_step; [| lia].
    intros i bs. apply convertible_text, Hconv.
  - destruct HI as (Hj & Hr & l & jps & Hlen & Htr & Hst).
    cbn [Nat.add] in Hst, Hlen. rewrite firstn_all in Hst.
    exists args, w1, l, jps. auto 10.
Qed.

(** The first loop, on an array with an element that cannot be
    retrieved: [f] is the first such element, and the loop stops in its
    round. *)
Lemma convert_rounds_undefined (arguments : jobject) (w : CW) (n f : nat)
    (bss : list (list byte)) :
  (f < n)%nat ->
  length bss = f ->
  (forall i bs, bss !! i = Some bs -> text env (java w) arguments i = Some bs) ->
  text env (java w) arguments f = None ->
  exists w' jps,
    rounds n Int32.zero (convert_body env sso_capacity grow arguments) vector_empty w
      = Undefined w' /\
    length jps = f /\
    trace w' = trace w ++ convert_trace env (java w) arguments 0 jps ++
               [EvGetObjectArrayElement arguments (Int32.repr (Z.of_nat f));
                EvGetStringUTFChars (element env (java w) arguments f)].
Proof.
  intros Hf Hlen Htexts Hnone.
  destruct (rounds_undefined (convert_inv env sso_capacity arguments w bss)
              (fun w' => exists jps, length jps = f /\
                 trace w' = trace w ++ convert_trace env (java w) arguments 0 jps ++
                   [EvGetObjectArrayElement arguments (Int32.repr (Z.of_nat f));
                    EvGetStringUTFChars (element env (java w) arguments f)])
              (convert_body env sso_capacity grow arguments) n 0 f vector_empty w)
    as (w' & Hrun & jps & Hjps & Htr).
  - lia.
  - apply convert_inv_init.
  - intros k args w1 Hk. apply convert_inv_step; [assumption | lia].
  - intros args w1 (Hj & _ & l & jps & Hjps & Htr & _).
    eexists. split.
    + apply convert_body_undefined. rewrite Hj. assumption.
    + exists jps. split; [assumption |]. cbn [trace].
      rewrite Htr, Hj, <- app_assoc. reflexivity.
  - exists w', jps. auto.
Qed.

End Convert.

(** ** The second loop *)

Section Argv.

Context {J R : Type}.
Variable sso_capacity : nat.
Variable grow : nat -> nat.
Abbreviation AW := (World J R).

Lemma argv_state_empty (h1 : memory) : argv_state h1 h1 vector_empty [].
Proof.
  split.
  - reflexivity.
  - reflexivity.
  - intros b Hb. inversion Hb.
  - reflexivity.
Qed.

(** Building [argv] leaves the blocks of [args] alone. *)
Lemma argv_state_args (h0 h1 h : memory) (args argv : vector)
    (l : list cell) (bss : list (list byte)) (ps : list ptr) :
  args_state sso_capacity h0 h1 args l bss ->
  argv_state h1 h argv ps ->
  forall b, b ∈ storage args ++ long_blocks l -> h !! b = h1 !! b.
Proof.
  intros Hargs Hargv b Hb. apply (argv_frame _ _ _ _ Hargv).
  intros Hin. apply (argv_fresh _ _ _ _ Hargv) in Hin.
  destruct (args_state_live _ _ _ _ _ _ _ Hargs Hb) as [o Ho]. congruence.
Qed.

Lemma args_state_slot (h0 h1 : memory) (args : vector)
    (l : list cell) (bss : list (list byte)) (i : nat) :
  args_state sso_capacity h0 h1 args l bss -> (i < length bss)%nat ->
  exists s bs b, l !! i = Some (CStr s) /\ bss !! i = Some bs /\
                 v_data args = Ptr b 0%nat /\
                 str_holds sso_capacity h1 (CStr s) bs.
Proof.
  intros Hst Hi.
  pose proof (args_texts _ _ _ _ _ _ Hst) as Ht.
  destruct (lookup_lt_is_Some_2 bss i Hi) as [bs Hbs].
  destruct (Forall2_lookup_r _ _ _ _ _ Ht Hbs) as (c & Hc & Hholds).
  destruct c as [s|p]; [| contradiction].
  pose proof (args_slots _ _ _ _ _ _ Hst) as Hs.
  unfold vector_slots in Hs.
  destruct (v_data args) as [|b [|o]] eqn:Hv.
  - injection Hs as <-. rewrite lookup_nil in Hc. discriminate.
  - eauto 10.
  - discriminate.
Qed.

(** A round of the second loop. *)
Lemma argv_body_spec (h0 h1 : memory) (args argv : vector) (w : AW)
    (l : list cell) (bss : list (list byte)) (ps : list ptr) (k : nat) :
  args_state sso_capacity h0 h1 args l bss ->
  argv_state h1 (heap w) argv ps ->
  (k < length bss)%nat ->
  Z.of_nat k <= Int32.max_signed ->
  exists argv' w' p,
    argv_body grow args (Int32.repr (Z.of_nat k)) argv w = Done argv' w' /\
    java w' = java w /\ runtime w' = runtime w /\ trace w' = trace w /\
    c_str_ptr h1 args k = Some p /\
    argv_state h1 (heap w') argv' (ps ++ [p]).
Proof.
  intros Hargs Hargv Hk Hmax.
  destruct (args_state_slot _ _ _ _ _ _ Hargs Hk) as (s & bs & b & Hl & Hbs & Hv & Hholds).
  assert (vector_slots (heap w) args = Some l) as Hslots.
  { rewrite <- (args_slots _ _ _ _ _ _ Hargs). apply vector_slots_frame.
    intros x Hx. eapply argv_state_args; [eassumption .. |]. apply elem_of_app. auto. }
  assert (exists p, c_str_ptr h1 args k = Some p /\
                    c_str args (Int32.repr (Z.of_nat k)) w = Done p w) as (p & Hp & Hc).
  { unfold c_str_ptr, c_str, bind, read_heap.
    rewrite Hslots, (args_slots _ _ _ _ _ _ Hargs), Hv.
    rewrite signed_repr_nat, Nat2Z.id, Hl by assumption.
    destruct s; eauto. }
  unfold argv_body, bind. rewrite Hc.
  destruct (push_back_spec grow argv (CPtr p) w (map CPtr ps))
    as (argv' & w' & Hpb & Hj' & Hr' & Ht' & Hs' & Hd' & Hkeep & Hnew & Hold).
  { apply (argv_slots _ _ _ _ Hargv). }
  { apply (argv_cap _ _ _ _ Hargv). }
  exists argv', w', p. repeat (split; [assumption |]).
  destruct Hd' as [b' Hb'].
  split.
  - rewrite map_app. exact Hs'.
  - rewrite Hb'. discriminate.
  - intros x Hx. destruct (Hnew x Hx) as [Hin|Hnone].
    + apply (argv_fresh _ _ _ _ Hargv), Hin.
    + destruct (decide (x ∈ storage argv)) as [Hin|Hnin].
      * apply (argv_fresh _ _ _ _ Hargv), Hin.
      * rewrite <- (argv_frame _ _ _ _ Hargv) by assumption. assumption.
  - intros x Hx. destruct (decide (x ∈ storage argv)) as [Hin|Hnin].
    + destruct (Hold x Hin) as [?|Hnone]; [contradiction |].
      rewrite Hnone. symmetry. apply (argv_fresh _ _ _ _ Hargv), Hin.
    + rewrite Hkeep by assumption. apply (argv_frame _ _ _ _ Hargv), Hnin.
Qed.

(** The second loop, run in the memory the first loop left. *)
Lemma argv_rounds_spec (h0 : memory) (args : vector) (w : AW)
    (l : list cell) (bss : list (list byte)) :
  args_state sso_capacity h0 (heap w) args l bss ->
  Z.of_nat (length bss) <= Int32.max_signed ->
  exists argv w2 ps,
    rounds (length bss) Int32.zero (argv_body grow args) vector_empty w = Done argv w2 /\
    java w2 = java w /\ runtime w2 = runtime w /\ trace w2 = trace w /\
    length ps = length bss /\
    (forall i p, ps !! i = Some p -> c_str_ptr (heap w) args i = Some p) /\
    argv_state (heap w) (heap w2) argv ps.
Proof.
  intros Hargs Hmax.
  pose (I := fun (k : nat) (argv : vector) (w2 : AW) =>
    java w2 = java w /\ runtime w2 = runtime w /\ trace w2 = trace w /\
    exists ps,
      length ps = k /\
      (forall i p, ps !! i = Some p -> c_str_ptr (heap w) args i = Some p) /\
      argv_state (heap w) (heap w2) argv ps).
  destruct (rounds_invariant I (argv_body grow args) (length bss) 0 vector_empty w)
    as (argv & w2 & Hrun & HI).
  - repeat (split; [reflexivity |]). exists []. split; [reflexivity |]. split.
    + intros i p Hi. rewrite lookup_nil in Hi. discriminate.
    + apply argv_state_empty.
  - intros k argv w2 Hk (Hj & Hr & Ht & ps & Hlen & Hps & Hargv).
    destruct (argv_body_spec h0 (heap w) args argv w2 l bss ps k Hargs Hargv)
      as (argv' & w' & p & Hbody & Hj' & Hr' & Ht' & Hp & Hargv'); [lia .. |].
    exists argv', w'. split; [exact Hbody |].
    repeat (split; [congruence |]).
    exists (ps ++ [p]). split; [| split].
    + rewrite length_app. cbn. lia.
    + intros i q Hi. apply lookup_app_Some in Hi as [Hi|[Hge Hi]]; [auto |].
      rewrite Hlen in *. apply list_lookup_singleton_Some in Hi as [Hi <-].
      replace i with k by lia. exact Hp.
    + exact Hargv'.
  - destruct HI as (Hj & Hr & Ht & ps & Hlen & Hps & Hargv).
    exists argv, w2, ps. auto 10.
Qed.

(** What the pointers of [argv] point to. *)
Lemma long_blocks_lookup (l : list cell) (i : nat) (b : block) :
  l !! i = Some (CStr (Long b)) -> b ∈ long_blocks l.
Proof.
  revert i. induction l as [|c l IH]; intros [|i]; cbn; try discriminate.
  - intros [= ->]. left.
  - intros Hi. apply IH in Hi. destruct c as [[s|b']|p]; [| right |]; assumption.
Qed.

Lemma c_str_ptr_content (h0 h1 h : memory) (args : vector)
    (l : list cell) (bss : list (list byte)) (i : nat) (p : ptr) (bs : list byte) :
  args_state sso_capacity h0 h1 args l bss ->
  (forall b, b ∈ storage args ++ long_blocks l -> h !! b = h1 !! b) ->
  c_str_ptr h1 args i = Some p ->
  bss !! i = Some bs ->
  c_str_ptr h args i = Some p /\ load_bytes h p = Some (bs ++ [x00]).
Proof.
  intros Hargs Hframe Hp Hbs.
  pose proof (lookup_lt_Some _ _ _ Hbs) as Hi.
  destruct (args_state_slot _ _ _ _ _ _ Hargs Hi) as (s & bs' & b & Hl & Hbs' & Hv & Hholds).
  assert (bs' = bs) as -> by congruence.
  pose proof (args_slots _ _ _ _ _ _ Hargs) as Hslots.
  assert (b ∈ storage args) as Hb by (apply storage_spec; eauto).
  destruct (vector_slots_storage _ _ _ _ Hslots Hb) as [_ Hhb].
  assert (vector_slots h args = Some l) as Hslots'.
  { rewrite <- Hslots. apply vector_slots_frame.
    intros x Hx. apply Hframe, elem_of_app. auto. }
  unfold c_str_ptr in *. rewrite Hslots, Hv, Hl in Hp. rewrite Hslots', Hv, Hl.
  destruct s as [s|b']; injection Hp as <-; (split; [reflexivity |]); cbn in Hholds.
  - destruct Hholds as [-> _]. unfold load_bytes.
    rewrite Hframe, Hhb, Hl by (apply elem_of_app; auto). reflexivity.
  - destruct Hholds as [Hb' _]. unfold load_bytes.
    rewrite Hframe, Hb'.
    + cbn [Nat.leb]. rewrite drop_0. reflexivity.
    + apply elem_of_app. right. eapply long_blocks_lookup, Hl.
Qed.

End Argv.

(** ** Destructors *)

Section Destructors.

Context {J R : Type}.
Abbreviation DW := (World J R).

Lemma destroy_cells_ptrs (ps : list ptr) (w : DW) :
  destroy_cells (map CPtr ps) w = Done tt w.
Proof. induction ps as [|p ps IH]; cbn; [reflexivity | exact IH]. Qed.

(** Destroying the strings releases exactly their heap buffers. *)
Lemma destroy_cells_spec (l : list cell) :
  forall w : DW,
    NoDup (long_blocks l) ->
    (forall b, b ∈ long_blocks l -> is_Some (heap w !! b)) ->
    exists w',
      destroy_cells l w = Done tt w' /\
      java w' = java w /\ runtime w' = runtime w /\ trace w' = trace w /\
      (forall b, b ∈ long_blocks l -> heap w' !! b = None) /\
      (forall b, b ∉ long_blocks l -> heap w' !! b = heap w !! b).
Proof.
  induction l as [|c l IH]; intros w Hnd Hlive.
  - exists w. cbn. repeat split; auto. intros b Hb. inversion Hb.
  - destruct c as [[s|b0]|p]; cbn [destroy_cells string_dtor long_blocks] in *.
    + apply IH; assumption.
    + apply NoDup_cons in Hnd as [Hb0 Hnd].
      destruct (Hlive b0 ltac:(left)) as [o Ho].
      unfold bind, free_block at 1. rewrite Ho.
      set (w1 := mkWorld _ _ _ _).
      destruct (IH w1 Hnd) as (w' & Hrun & Hj & Hr & Ht & Hgone & Hkeep).
      { intros b Hb. cbn. rewrite lookup_delete_ne by (intros ->; contradiction).
        apply Hlive. right. exact Hb. }
      exists w'. split; [exact Hrun |]. repeat (split; [assumption |]). split.
      * intros b [->|Hb]%elem_of_cons; [| auto].
        rewrite Hkeep by assumption. apply lookup_delete_eq.
      * intros b Hb. apply not_elem_of_cons in Hb as [Hne Hb].
        rewrite Hkeep by assumption. apply lookup_delete_ne. congruence.
    + apply IH; assumption.
Qed.

(** [~vector<char*>] gives back the storage of [argv]. *)
Lemma vector_dtor_argv (h1 : memory) (argv : vector) (ps : list ptr) (w : DW) :
  argv_state h1 (heap w) argv ps ->
  vector_dtor argv w = Done tt (mkWorld (java w) (runtime w) h1 (trace w)).
Proof.
  intros [Hs _ Hfresh Hframe].
  unfold vector_dtor, bind, read_heap. rewrite Hs, destroy_cells_ptrs.
  destruct (v_data argv) as [|b o] eqn:Hv.
  - unfold ret. destruct w as [j r h t]. cbn in *. do 2 f_equal.
    apply map_eq. intros x. apply Hframe. unfold storage. rewrite Hv. apply not_elem_of_nil.
  - assert (b ∈ storage argv) as Hb by (apply storage_spec; eauto).
    destruct (vector_slots_storage _ _ _ _ Hs Hb) as [_ Hhb].
    unfold free_block. rewrite Hhb. do 2 f_equal.
    apply map_eq. intros x. destruct (decide (x = b)) as [->|Hne].
    + rewrite lookup_delete_eq. symmetry. auto.
    + rewrite lookup_delete_ne by congruence. apply Hframe.
      intros [o' Hx]%storage_spec. congruence.
Qed.

(** [~vector<std::string>] gives back the storage of [args] and the
    buffers of its strings. *)
Lemma vector_dtor_args sso (h0 : memory) (args : vector) (l : list cell)
    (bss : list (list byte)) (w : DW) :
  args_state sso h0 (heap w) args l bss ->
  vector_dtor args w = Done tt (mkWorld (java w) (runtime w) h0 (trace w)).
Proof.
  intros Hargs. pose proof Hargs as [Hs _ Ht Hnd Hfresh Hframe].
  apply NoDup_app in Hnd as (_ & Hdisj & Hnd).
  unfold vector_dtor, bind, read_heap. rewrite Hs.
  destruct (destroy_cells_spec l w Hnd) as (w' & Hrun & Hj & Hr & Htr & Hgone & Hkeep).
  { intros b Hb. eapply args_state_live; [exact Hargs |]. apply elem_of_app. auto. }
  rewrite Hrun.
  destruct (v_data args) as [|b o] eqn:Hv.
  - unfold ret. destruct w' as [j r h t]. cbn in *. subst. do 2 f_equal.
    apply map_eq. intros x. destruct (decide (x ∈ long_blocks l)) as [Hin|Hnin].
    + rewrite Hgone by assumption. symmetry. apply Hfresh, elem_of_app. auto.
    + rewrite Hkeep by assumption. apply Hframe.
      unfold storage. rewrite Hv. cbn. assumption.
  - assert (b ∈ storage args) as Hb by (apply storage_spec; eauto).
    destruct (vector_slots_storage _ _ _ _ Hs Hb) as [_ Hhb].
    unfold free_block. rewrite Hkeep, Hhb by (intros Hin; exact (Hdisj b Hb Hin)).
    rewrite Hj, Hr, Htr. do 2 f_equal.
    apply map_eq. intros x. destruct (decide (x = b)) as [->|Hne].
    { rewrite lookup_delete_eq. symmetry. apply Hfresh, elem_of_app. auto. }
    rewrite lookup_delete_ne by congruence.
    destruct (decide (x ∈ long_blocks l)) as [Hin|Hnin].
    + rewrite Hgone by assumption. symmetry. apply Hfresh, elem_of_app. auto.
    + rewrite Hkeep by assumption. apply Hframe.
      intros [[o' Hx]%storage_spec|Hx]%elem_of_app; [congruence | contradiction].
Qed.

End Destructors.

(** ** Marshalling and invocation *)

(** A list of optional texts is all texts, or has a first missing one. *)
Lemma options_cases {A} (los : list (option A)) :
  (exists l, los = map Some l) \/
  (exists f l, length l = f /\ (f < length los)%nat /\
               (forall i x, l !! i = Some x -> los !! i = Some (Some x)) /\
               los !! f = Some None).
Proof.
  induction los as [|[x|] los IH].
  - left. exists []. reflexivity.
  - destruct IH as [[l ->]|(f & l & Hlen & Hf & Hl & Hnone)].
    + left. exists (x :: l). reflexivity.
    + right. exists (S f), (x :: l). cbn. repeat split; [lia | lia | | assumption].
      intros [|i] y; cbn; [congruence | auto].
  - right. exists 0%nat, []. cbn. repeat split; [lia |].
    intros i x Hi. rewrite lookup_nil in Hi. discriminate.
Qed.

Lemma lookup_map_seq {A} (f : nat -> A) (n i : nat) (x : A) :
  map f (seq 0 n) !! i = Some x -> (i < n)%nat /\ f i = x.
Proof.
  change (map f (seq 0 n)) with (f <$> seq 0 n).
  rewrite list_lookup_fmap. intros H.
  destruct (seq 0 n !! i) as [k|] eqn:Hk; [| discriminate].
  apply lookup_seq in Hk as [-> Hlt]. cbn in H. split; [assumption | congruence].
Qed.


Section Marshal.

Context {J R : Type}.
Variable env : JNIEnv J.
Variable node_Start : int -> ptr -> memory -> R -> int * R.
Variable sso_capacity : nat.
Variable grow : nat -> nat.
Abbreviation MW := (World J R).

(** Lines 17-32 on an array whose elements can all be retrieved. *)
Lemma marshal_spec (arguments : jobject) (w : MW) (bss : list (list byte)) :
  convertible env (java w) arguments bss ->
  exists args argv w1 jps,
    marshal env sso_capacity grow arguments w
      = Done (GetArrayLength env (java w) arguments, args, argv) w1 /\
    java w1 = java w /\ runtime w1 = runtime w /\
    length jps = length bss /\
    trace w1 = trace w ++
               EvGetArrayLength arguments :: convert_trace env (java w) arguments 0 jps /\
    marshalled sso_capacity (heap w) (heap w1) args argv bss.
Proof.
  intros Hconv. pose proof (convertible_length env _ _ _ Hconv) as Hlen.
  unfold marshal, JNI_GetArrayLength, bind, emit. cbn [java heap trace runtime].
  rewrite for_loop_rounds, <- Hlen.
  set (w0 := mkWorld _ _ _ _).
  destruct (convert_rounds_spec env sso_capacity grow arguments w0 bss Hconv)
    as (args & w1 & l & jps & Hrun1 & Hj1 & Hr1 & Hjps & Ht1 & Hargs).
  rewrite Hrun1, for_loop_rounds, <- Hlen.
  subst w0. cbn [java heap trace runtime] in *.
  destruct (argv_rounds_spec sso_capacity grow (heap w) args w1 l bss Hargs)
    as (argv & w2 & ps & Hrun2 & Hj2 & Hr2 & Ht2 & Hps & Hptrs & Hargv).
  { rewrite Hlen. apply trip_count_bound. }
  rewrite Hrun2. unfold ret.
  exists args, argv, w2, jps. split; [reflexivity |].
  split; [congruence |]. split; [congruence |]. split; [assumption |]. split.
  - rewrite Ht2, Ht1, <- app_assoc. reflexivity.
  - exists (heap w1), l, ps. repeat (split; [assumption |]).
    intros ->. cbn in Hrun1, Hrun2. unfold ret in *.
    injection Hrun1 as <- <-. injection Hrun2 as <- <-. auto.
Qed.

(** Lines 17-32 on an array with an element that cannot be retrieved:
    the run stops in the round of the first such element, having made
    JNI calls only. *)
Lemma marshal_undefined (arguments : jobject) (w : MW) :
  ~ (exists bss, convertible env (java w) arguments bss) ->
  exists w' f jps,
    marshal env sso_capacity grow arguments w = Undefined w' /\
    text env (java w) arguments f = None /\
    length jps = f /\
    trace w' = trace w ++
               EvGetArrayLength arguments ::
               convert_trace env (java w) arguments 0 jps ++
               [EvGetObjectArrayElement arguments (Int32.repr (Z.of_nat f));
                EvGetStringUTFChars (element env (java w) arguments f)].
Proof.
  intros Hnot.
  destruct (options_cases (texts env (java w) arguments))
    as [[bss Hbss]|(f & bss & Hlen & Hf & Hl & Hnone)].
  { exfalso. apply Hnot. exists bss. exact Hbss. }
  unfold texts in *. rewrite length_map, length_seq in Hf.
  apply lookup_map_seq in Hnone as [_ Hnone].
  unfold marshal, JNI_GetArrayLength, bind, emit. cbn [java heap trace runtime].
  rewrite for_loop_rounds.
  set (w0 := mkWorld _ _ _ _).
  destruct (convert_rounds_undefined env sso_capacity grow arguments w0 _ f bss Hf Hlen)
    as (w' & jps & -> & Hjps & Htr).
  - cbn [java]. intros i bs Hi. apply Hl, lookup_map_seq in Hi as [_ Hi]. exact Hi.
  - exact Hnone.
  - exists w', f, jps. split; [reflexivity |]. split; [exact Hnone |].
    split; [exact Hjps |]. rewrite Htr. subst w0. cbn [java trace].
    rewrite <- app_assoc. reflexivity.
Qed.

(** What the runtime finds behind [argv]: slot [i] points to the
    characters of [args[i]], a terminated copy of text [i], in a block
    that was not live when the bridge was entered. *)
Lemma marshalled_view (h0 mem : memory) (args argv : vector) (bss : list (list byte))
    (i : nat) (bs : list byte) :
  marshalled sso_capacity h0 mem args argv bss ->
  bss !! i = Some bs ->
  exists b o,
    load_ptr mem (v_data argv) i = Some (Ptr b o) /\
    c_str_ptr mem args i = Some (Ptr b o) /\
    load_bytes mem (Ptr b o) = Some (bs ++ [x00]) /\
    h0 !! b = None.
Proof.
  intros (h1 & l & ps & Hargs & Hargv & Hlen & Hptrs & _) Hbs.
  pose proof (lookup_lt_Some _ _ _ Hbs) as Hi.
  destruct (lookup_lt_is_Some_2 ps i ltac:(lia)) as [p Hp].
  destruct (c_str_ptr_content sso_capacity h0 h1 mem args l bss i p bs Hargs)
    as [Hc Hb]; auto.
  { eapply argv_state_args; eassumption. }
  assert (load_ptr mem (v_data argv) i = Some p) as Hload.
  { pose proof (argv_slots _ _ _ _ Hargv) as Hs.
    unfold load_ptr. unfold vector_slots in Hs.
    destruct (v_data argv) as [|b [|o]]; [| | discriminate].
    - injection Hs as Hs. destruct ps; [rewrite lookup_nil in Hp|]; discriminate.
    - destruct (mem !! b) as [[|l']|]; try discriminate. injection Hs as ->.
      change (map CPtr ps) with (CPtr <$> ps). rewrite list_lookup_fmap, Hp. reflexivity. }
  destruct p as [|b o]; [discriminate |].
  exists b, o. repeat (split; [assumption |]).
  apply (args_fresh _ _ _ _ _ _ Hargs).
  destruct (args_state_slot _ _ _ _ _ _ _ Hargs Hi) as (s & bs' & b0 & Hl & _ & Hv & _).
  pose proof (Hptrs _ _ Hp) as Hc1. unfold c_str_ptr in Hc1.
  rewrite (args_slots _ _ _ _ _ _ Hargs), Hv, Hl in Hc1.
  apply elem_of_app. destruct s as [s|b']; injection Hc1 as <- <-.
  - left. apply storage_spec. eauto.
  - right. eapply long_blocks_lookup, Hl.
Qed.

(** The bridge's blocks come on top of the memory at entry. *)
Lemma marshalled_extends (h0 mem : memory) (args argv : vector) (bss : list (list byte))
    (b : block) (o : hobj) :
  marshalled sso_capacity h0 mem args argv bss ->
  h0 !! b = Some o -> mem !! b = Some o.
Proof.
  intros (h1 & l & ps & Hargs & Hargv & _) Hb.
  assert (h1 !! b = Some o) as Hb1.
  { rewrite (args_frame _ _ _ _ _ _ Hargs); [assumption |].
    intros Hin. apply (args_fresh _ _ _ _ _ _ Hargs) in Hin. congruence. }
  rewrite (argv_frame _ _ _ _ Hargv); [assumption |].
  intros Hin. apply (argv_fresh _ _ _ _ Hargv) in Hin. congruence.
Qed.

Lemma marshalled_size (h0 mem : memory) (args argv : vector) (bss : list (list byte)) :
  marshalled sso_capacity h0 mem args argv bss ->
  exists ps, vector_slots mem argv = Some (map CPtr ps) /\ length ps = length bss.
Proof.
  intros (h1 & l & ps & _ & Hargv & Hlen & _). exists ps.
  split; [apply (argv_slots _ _ _ _ Hargv) | assumption].
Qed.

(** Lines 34-38 and the destructors, on marshalled arguments. *)
Lemma invoke_spec (argc : int) (args argv : vector) (w : MW) (h0 : memory)
    (bss : list (list byte)) :
  marshalled sso_capacity h0 (heap w) args argv bss ->
  invoke node_Start argc args argv w =
  Done (node_Start argc (v_data argv) (heap w) (runtime w)).1
       (mkWorld (java w)
                (node_Start argc (v_data argv) (heap w) (runtime w)).2
                h0
                (trace w ++
                 [EvLog ANDROID_LOG_DEBUG TAG "Starting Embedded Node.js...";
                  EvStart argc (v_data argv) (heap w);
                  EvLog ANDROID_LOG_DEBUG TAG ("Node.js exited with code: " ++
                    fmt_d (node_Start argc (v_data argv) (heap w) (runtime w)).1)])).
Proof.
  intros (h1 & l & ps & Hargs & Hargv & _).
  unfold invoke, LOGD, call_node_Start, bind, emit. cbn [java heap trace runtime].
  destruct (node_Start argc (v_data argv) (heap w) (runtime w)) as [r rt].
  cbn [java heap trace runtime fst snd].
  erewrite vector_dtor_argv by exact Hargv. cbn [java heap trace runtime].
  erewrite vector_dtor_args by exact Hargs. cbn [java heap trace runtime].
  unfold ret. rewrite <- !app_assoc. reflexivity.
Qed.

End Marshal.


(** ** The native method as a whole *)

Section Method.

Context {J R : Type}.
Variable env : JNIEnv J.
Variable node_Start : int -> ptr -> memory -> R -> int * R.
Variable sso_capacity : nat.
Variable grow : nat -> nat.
Abbreviation SW := (World J R).

Lemma convert_trace_quiet (j : J) (arguments : jobject) (ps : list ptr) :
  forall i,
    List.filter is_log (convert_trace env j arguments i ps) = [] /\
    List.filter is_start (convert_trace env j arguments i ps) = [] /\
    length (List.filter is_element_fetch (convert_trace env j arguments i ps)) = length ps.
Proof.
  induction ps as [|p ps IH]; intros i; cbn; [auto |].
  destruct (IH (S i)) as (-> & -> & ->). auto.
Qed.

(** A call on an array whose elements can all be retrieved. *)
Lemma startNode_spec (this arguments : jobject) (w : SW) (bss : list (list byte)) :
  convertible env (java w) arguments bss ->
  exists args argv w1 jps,
    let argc := GetArrayLength env (java w) arguments in
    let res := node_Start argc (v_data argv) (heap w1) (runtime w) in
    marshal env sso_capacity grow arguments w = Done (argc, args, argv) w1 /\
    length jps = length bss /\
    trace w1 = trace w ++
               EvGetArrayLength arguments :: convert_trace env (java w) arguments 0 jps /\
    marshalled sso_capacity (heap w) (heap w1) args argv bss /\
    startNode env node_Start sso_capacity grow this arguments w =
    Done res.1
         (mkWorld (java w) res.2 (heap w)
            (trace w1 ++
             [EvLog ANDROID_LOG_DEBUG TAG "Starting Embedded Node.js...";
              EvStart argc (v_data argv) (heap w1);
              EvLog ANDROID_LOG_DEBUG TAG ("Node.js exited with code: " ++ fmt_d res.1)])).
Proof.
  intros Hconv.
  destruct (marshal_spec env sso_capacity grow arguments w bss Hconv)
    as (args & argv & w1 & jps & Hm & Hj & Hr & Hjps & Ht & Hmar).
  exists args, argv, w1, jps. cbn zeta.
  repeat (split; [assumption |]).
  unfold Java_com_landseek_amphibian_service_AmphibianNative_startNode, bind.
  rewrite Hm. cbn [fst snd].
  rewrite (invoke_spec node_Start sso_capacity _ _ _ _ (heap w) bss Hmar), Hj, Hr.
  reflexivity.
Qed.

Lemma startNode_undefined (this arguments : jobject) (w : SW) :
  ~ (exists bss, convertible env (java w) arguments bss) ->
  exists w' evs,
    startNode env node_Start sso_capacity grow this arguments w = Undefined w' /\
    trace w' = trace w ++ evs /\
    List.filter is_start evs = [] /\
    List.filter is_log evs = [].
Proof.
  intros Hnot.
  destruct (marshal_undefined env sso_capacity grow arguments w Hnot)
    as (w' & f & jps & Hm & _ & _ & Htr).
  unfold Java_com_landseek_amphibian_service_AmphibianNative_startNode, bind.
  rewrite Hm. eexists w', _. split; [reflexivity |]. split; [exact Htr |].
  destruct (convert_trace_quiet (java w) arguments jps 0%nat) as (Hlog & Hstart & _).
  cbn [List.filter is_start is_log]. rewrite !List.filter_app, Hlog, Hstart. auto.
Qed.

Lemma convertible_dec (j : J) (arguments : jobject) :
  (exists bss, convertible env j arguments bss) \/
  ~ (exists bss, convertible env j arguments bss).
Proof.
  destruct (options_cases (texts env j arguments))
    as [[bss Hbss]|(f & l & _ & Hf & _ & Hnone)].
  - left. exists bss. exact Hbss.
  - right. intros [bss Hbss]. unfold convertible in Hbss. rewrite Hbss in Hnone.
    change (map Some bss) with (Some <$> bss) in Hnone.
    rewrite list_lookup_fmap in Hnone. destruct (bss !! f); discriminate.
Qed.

(** Marshalling completes only if every element can be retrieved. *)
Lemma marshal_done (arguments : jobject) (w : SW) (m : int * vector * vector) (w1 : SW) :
  marshal env sso_capacity grow arguments w = Done m w1 ->
  exists bss, convertible env (java w) arguments bss.
Proof.
  intros Hm. destruct (convertible_dec (java w) arguments) as [H|H]; [exact H |].
  destruct (marshal_undefined env sso_capacity grow arguments w H) as (w' & f & jps & Hu & _).
  rewrite Hu in Hm. discriminate.
Qed.

Lemma startNode_done (this arguments : jobject) (w : SW) (r : int) (wf : SW) :
  startNode env node_Start sso_capacity grow this arguments w = Done r wf ->
  exists bss, convertible env (java w) arguments bss.
Proof.
  intros Hrun. destruct (convertible_dec (java w) arguments) as [H|H]; [exact H |].
  destruct (startNode_undefined this arguments w H) as (w' & evs & Hu & _).
  rewrite Hu in Hrun. discriminate.
Qed.

Lemma convertible_NUL_free (j : J) (arguments : jobject) (bss : list (list byte))
    (i : nat) (bs : list byte) :
  convertible env j arguments bss -> bss !! i = Some bs -> x00 ∉ bs.
Proof.
  intros Hconv Hbs. eapply StringUTFChars_no_NUL, convertible_text; eassumption.
Qed.

Lemma convertible_argc (j : J) (arguments : jobject) (bss : list (list byte)) :
  convertible env j arguments bss ->
  Z.of_nat (length bss) = Int32.signed (GetArrayLength env j arguments).
Proof.
  intros Hconv. rewrite (convertible_length env _ _ _ Hconv). unfold trip_count.
  pose proof (GetArrayLength_nonneg env j arguments). lia.
Qed.

Lemma load_cstr_terminated (mem : memory) (p : ptr) (bs : list byte) :
  load_bytes mem p = Some (bs ++ [x00]) -> x00 ∉ bs -> load_cstr mem p = Some bs.
Proof.
  intros Hb Hnul. unfold load_cstr. rewrite Hb. apply cstr_prefix_terminated, Hnul.
Qed.

(** The runtime reads the texts of the array behind [argv]. *)
Lemma marshalled_strings (j : J) (arguments : jobject) (h0 mem : memory)
    (args argv : vector) (bss : list (list byte)) :
  convertible env j arguments bss ->
  marshalled sso_capacity h0 mem args argv bss ->
  argv_strings mem (v_data argv) (length bss) = map Some bss.
Proof.
  intros Hconv Hmar. unfold argv_strings.
  apply list_eq. intros i.
  change (map ?f ?l) with (f <$> l). rewrite !list_lookup_fmap.
  destruct (bss !! i) as [bs|] eqn:Hbs; cbn.
  - rewrite lookup_seq_lt by (eapply lookup_lt_Some; eassumption). cbn.
    destruct (marshalled_view sso_capacity _ _ _ _ _ _ _ Hmar Hbs)
      as (b & o & -> & _ & Hb & _).
    f_equal. apply load_cstr_terminated; [assumption |].
    eapply convertible_NUL_free; eassumption.
  - rewrite lookup_seq_ge; [reflexivity |]. apply lookup_ge_None. assumption.
Qed.

End Method.

(** * The claims of the specification *)

Section Claims.

Context {J R : Type}.
Variable env : JNIEnv J.
Variable node_Start : int -> ptr -> memory -> R -> int * R.
Variable sso_capacity : nat.
Variable grow : nat -> nat.
Abbreviation BW := (World J R).

Abbreviation bridge := (startNode env node_Start sso_capacity grow).

(** C1, for the calls whose element retrievals all succeed.  Pass-through
    identity.  On an array whose elements can all be retrieved as native
    bytes, a call of the bridge completes, [node::Start] is entered
    exactly once in the course of the call, and the value returned to the
    caller is the very integer that this invocation returned, whatever it
    is; the runtime state the call leaves is the one that invocation
    left. *)
Theorem C1_result_passed_through (this arguments : jobject) (w : BW)
    (bss : list (list byte)) :
  convertible env (java w) arguments bss ->
  exists argv mem evs wf,
    let argc := GetArrayLength env (java w) arguments in
    bridge this arguments w = Done (node_Start argc argv mem (runtime w)).1 wf /\
    trace wf = trace w ++ evs /\
    List.filter is_start evs = [EvStart argc argv mem] /\
    runtime wf = (node_Start argc argv mem (runtime w)).2.
Proof.
  intros Hconv.
  destruct (startNode_spec env node_Start sso_capacity grow this arguments w bss Hconv)
    as (args & argv & w1 & jps & _ & _ & Ht & _ & Hrun).
  cbn zeta in *.
  eexists (v_data argv), (heap w1), _, _. split; [exact Hrun |].
  cbn [trace runtime]. rewrite Ht, <- app_assoc. split; [reflexivity |].
  split; [| reflexivity].
  rewrite List.filter_app. cbn [List.filter is_start].
  destruct (convert_trace_quiet env (java w) arguments jps 0%nat) as (_ & -> & _).
  reflexivity.
Qed.

(** C2.  For an array of N strings, marshalling produces a pointer array
    with exactly N entries, N being the length JNI reports; entry [i]
    points to a buffer that holds the bytes of string [i] followed by a
    NUL, so that the C string read there is string [i]; the order is that
    of the array. *)
Theorem C2_marshalled_pointer_array (arguments : jobject) (w : BW)
    (bss : list (list byte)) :
  convertible env (java w) arguments bss ->
  exists args argv w1 ps,
    marshal env sso_capacity grow arguments w
      = Done (GetArrayLength env (java w) arguments, args, argv) w1 /\
    vector_slots (heap w1) argv = Some (map CPtr ps) /\
    length ps = length bss /\
    Z.of_nat (length ps) = Int32.signed (GetArrayLength env (java w) arguments) /\
    forall i bs, bss !! i = Some bs ->
      exists p,
        ps !! i = Some p /\
        load_ptr (heap w1) (v_data argv) i = Some p /\
        load_bytes (heap w1) p = Some (bs ++ [x00]) /\
        load_cstr (heap w1) p = Some bs.
Proof.
  intros Hconv.
  destruct (marshal_spec env sso_capacity grow arguments w bss Hconv)
    as (args & argv & w1 & jps & Hm & _ & _ & _ & _ & Hmar).
  destruct (marshalled_size sso_capacity _ _ _ _ _ Hmar) as (ps & Hs & Hlen).
  exists args, argv, w1, ps. repeat (split; [assumption |]).
  split; [rewrite Hlen; apply convertible_argc, Hconv |].
  intros i bs Hbs.
  destruct (marshalled_view sso_capacity _ _ _ _ _ _ _ Hmar Hbs)
    as (b & o & Hp & _ & Hb & _).
  exists (Ptr b o). split; [| split; [assumption | split; [assumption |]]].
  - unfold load_ptr, vector_slots in *.
    destruct (v_data argv) as [|b0 [|o0]]; try discriminate.
    destruct (heap w1 !! b0) as [[|l']|]; try discriminate. injection Hs as ->.
    change (map CPtr ps) with (CPtr <$> ps) in Hp. rewrite list_lookup_fmap in Hp.
    destruct (ps !! i) as [q|]; cbn in Hp; congruence.
  - apply load_cstr_terminated; [assumption |].
    eapply convertible_NUL_free; eassumption.
Qed.

(** C3.  For an array of length 0 marshalling is legal: it fetches no
    element and touches no buffer, leaves both vectors empty, and the
    invocation proceeds with [argc = 0] and a null [argv], its result
    being passed through unchanged. *)
Theorem C3_empty_array (this arguments : jobject) (w : BW) :
  Int32.signed (GetArrayLength env (java w) arguments) = 0 ->
  let argc := GetArrayLength env (java w) arguments in
  let res := node_Start argc NULL (heap w) (runtime w) in
  marshal env sso_capacity grow arguments w
    = Done (argc, vector_empty, vector_empty)
           (mkWorld (java w) (runtime w) (heap w)
              (trace w ++ [EvGetArrayLength arguments])) /\
  bridge this arguments w
    = Done res.1
           (mkWorld (java w) res.2 (heap w)
              (trace w ++
               [EvGetArrayLength arguments;
                EvLog ANDROID_LOG_DEBUG TAG "Starting Embedded Node.js...";
                EvStart argc NULL (heap w);
                EvLog ANDROID_LOG_DEBUG TAG ("Node.js exited with code: " ++ fmt_d res.1)])).
Proof.
  intros Hzero argc res.
  assert (trip_count argc = 0%nat) as Htrip
    by (unfold trip_count, argc; rewrite Hzero; reflexivity).
  assert (marshal env sso_capacity grow arguments w
    = Done (argc, vector_empty, vector_empty)
           (mkWorld (java w) (runtime w) (heap w)
              (trace w ++ [EvGetArrayLength arguments]))) as Hm.
  { unfold marshal, JNI_GetArrayLength, bind, emit. cbn [java heap trace runtime].
    rewrite for_loop_rounds. fold argc. rewrite Htrip.
    cbn [rounds]. unfold ret. rewrite for_loop_rounds, Htrip. reflexivity. }
  split; [exact Hm |].
  unfold Java_com_landseek_amphibian_service_AmphibianNative_startNode, bind.
  rewrite Hm. cbn [fst snd].
  unfold invoke, LOGD, call_node_Start, bind, emit.
  cbn [java heap trace runtime v_data vector_empty].
  fold res. destruct res as [r rt]. cbn [fst snd].
  unfold vector_dtor, bind, read_heap, ret. cbn.
  rewrite <- !app_assoc. reflexivity.
Qed.

(** C4.  The bridge has no error path.  If some element cannot be
    retrieved as native bytes, nothing is aborted and no code is
    returned: the call runs into undefined behaviour, which it reaches
    having made JNI calls only, before the first log line and without
    entering [node::Start].  A call completes exactly when every element
    retrieval succeeds, and each value a call returns was returned by
    [node::Start]: no input leads to an error result of the bridge's
    own. *)
Theorem C4_no_error_path (this arguments : jobject) (w : BW) :
  let argc := GetArrayLength env (java w) arguments in
  (forall i, (i < trip_count argc)%nat -> text env (java w) arguments i = None ->
     exists w' evs,
       bridge this arguments w = Undefined w' /\
       trace w' = trace w ++ evs /\
       List.filter is_start evs = [] /\
       List.filter is_log evs = []) /\
  ((exists r wf, bridge this arguments w = Done r wf) <->
   (exists bss, convertible env (java w) arguments bss)) /\
  (forall r wf, bridge this arguments w = Done r wf ->
     exists argv mem, r = (node_Start argc argv mem (runtime w)).1).
Proof.
  intros argc. split; [| split].
  - intros i Hi Hnone. apply startNode_undefined. intros [bss Hbss].
    destruct (lookup_lt_is_Some_2 bss i) as [bs Hbs].
    { rewrite (convertible_length env _ _ _ Hbss). exact Hi. }
    rewrite (convertible_text env _ _ _ _ _ Hbss Hbs) in Hnone. discriminate.
  - split.
    + intros (r & wf & Hrun). eapply startNode_done, Hrun.
    + intros [bss Hbss].
      destruct (startNode_spec env node_Start sso_capacity grow this arguments w bss Hbss)
        as (args & argv & w1 & jps & _ & _ & _ & _ & Hrun).
      eauto.
  - intros r wf Hrun.
    destruct (startNode_done env node_Start sso_capacity grow _ _ _ _ _ Hrun) as [bss Hbss].
    destruct (startNode_spec env node_Start sso_capacity grow this arguments w bss Hbss)
      as (args & argv & w1 & jps & _ & _ & _ & _ & Hrun').
    cbn zeta in Hrun'. rewrite Hrun' in Hrun. injection Hrun as <- _. eauto.
Qed.

(** C5, for the calls whose element retrievals all succeed.  A call on
    an array whose elements can all be retrieved emits exactly two log
    lines: "Starting Embedded Node.js..."
    right before [node::Start] is entered and "Node.js exited with code: N"
    right after it returned, N being the decimal form of the code it
    returned, which is also the value of the call.  When that code is 0
    the line is "Node.js exited with code: 0". *)
Theorem C5_two_log_lines (this arguments : jobject) (w : BW) (bss : list (list byte)) :
  convertible env (java w) arguments bss ->
  exists argv mem pre wf,
    let argc := GetArrayLength env (java w) arguments in
    let r := (node_Start argc argv mem (runtime w)).1 in
    bridge this arguments w = Done r wf /\
    trace wf = trace w ++ pre ++
               [EvLog ANDROID_LOG_DEBUG TAG "Starting Embedded Node.js...";
                EvStart argc argv mem;
                EvLog ANDROID_LOG_DEBUG TAG ("Node.js exited with code: " ++ fmt_d r)] /\
    List.filter is_log pre = [] /\
    List.filter is_start pre = [] /\
    (Int32.signed r = 0 ->
     "Node.js exited with code: " ++ fmt_d r = "Node.js exited with code: 0")%string.
Proof.
  intros Hconv.
  destruct (startNode_spec env node_Start sso_capacity grow this arguments w bss Hconv)
    as (args & argv & w1 & jps & _ & _ & Ht & _ & Hrun).
  cbn zeta in *.
  eexists (v_data argv), (heap w1),
    (EvGetArrayLength arguments :: convert_trace env (java w) arguments 0 jps), _.
  split; [exact Hrun |]. cbn [trace].
  destruct (convert_trace_quiet env (java w) arguments jps 0%nat) as (Hlog & Hstart & _).
  split; [| split; [| split]].
  - rewrite Ht, <- app_assoc. reflexivity.
  - cbn [List.filter is_log]. exact Hlog.
  - cbn [List.filter is_start]. exact Hstart.
  - intros Hr. unfold fmt_d. rewrite Hr. reflexivity.
Qed.

(** C6, with the invocation stated for the calls whose element retrievals
    all succeed.  The array length is not validated.  Whatever [int] the
    length is, a loop [for (int i = 0; i < argc; i++)] makes
    [max(argc, 0)] rounds unless a round is undefined; marshalling takes
    the length as JNI reports it and runs both of its loops on it; and
    when the elements can all be retrieved, [node::Start] is entered with
    that same [argc], after one element fetch per round. *)
Theorem C6_length_not_validated (this arguments : jobject) (w : BW) :
  (forall (St : Type) (argc : int) (body : int -> St -> M BW St) (s : St) (w' : BW),
     for_loop argc Int32.zero body s w' =
     rounds (Z.to_nat (Z.max (Int32.signed argc) 0)) Int32.zero body s w') /\
  marshal env sso_capacity grow arguments w =
    (let* argc := JNI_GetArrayLength env arguments in
     let* args := rounds (Z.to_nat (Z.max (Int32.signed argc) 0)) Int32.zero
                    (convert_body env sso_capacity grow arguments) vector_empty in
     let* argv := rounds (Z.to_nat (Z.max (Int32.signed argc) 0)) Int32.zero
                    (argv_body grow args) vector_empty in
     ret (argc, args, argv)) w /\
  (forall bss, convertible env (java w) arguments bss ->
     exists argv mem pre post r wf,
       let argc := GetArrayLength env (java w) arguments in
       bridge this arguments w = Done r wf /\
       trace wf = trace w ++ pre ++ EvStart argc argv mem :: post /\
       List.filter is_start pre = [] /\
       length (List.filter is_element_fetch pre)
         = Z.to_nat (Z.max (Int32.signed argc) 0)).
Proof.
  split; [| split].
  - intros St argc body s w'. apply for_loop_rounds.
  - unfold marshal, JNI_GetArrayLength, bind, emit. cbn [java heap trace runtime].
    rewrite for_loop_rounds. unfold trip_count.
    destruct (rounds _ _ _ _ _) as [args w1|w1]; [| reflexivity].
    rewrite for_loop_rounds. reflexivity.
  - intros bss Hconv.
    destruct (startNode_spec env node_Start sso_capacity grow this arguments w bss Hconv)
      as (args & argv & w1 & jps & _ & Hjps & Ht & _ & Hrun).
    cbn zeta in *.
    eexists (v_data argv), (heap w1),
      (EvGetArrayLength arguments :: convert_trace env (java w) arguments 0 jps
       ++ [EvLog ANDROID_LOG_DEBUG TAG "Starting Embedded Node.js..."]), _, _, _.
    split; [exact Hrun |]. cbn [trace].
    destruct (convert_trace_quiet env (java w) arguments jps 0%nat) as (_ & Hstart & Hfetch).
    split; [| split].
    + rewrite Ht. cbn [app]. rewrite <- !app_assoc. reflexivity.
    + cbn [List.filter is_start]. rewrite List.filter_app, Hstart. reflexivity.
    + cbn [List.filter is_element_fetch]. rewrite List.filter_app, length_app, Hfetch.
      cbn. rewrite Hjps, (convertible_length env _ _ _ Hconv). unfold trip_count. lia.
Qed.

(** C7.  Apart from entering [node::Start] once and the two log lines, a
    call that returns leaves nothing behind: the Java heap is as before,
    the native heap is exactly the heap at entry, and the runtime state
    is the one [node::Start] left.  The argument buffers handed to the
    runtime live in blocks that were not live at entry, are live during
    the invocation, and are gone at exit.  What the bridge does besides is
    to read the array through JNI. *)
Theorem C7_no_lasting_effects (this arguments : jobject) (w : BW) (r : int) (wf : BW) :
  bridge this arguments w = Done r wf ->
  java wf = java w /\
  heap wf = heap w /\
  exists argv mem jps,
    let argc := GetArrayLength env (java w) arguments in
    let res := node_Start argc argv mem (runtime w) in
    r = res.1 /\
    runtime wf = res.2 /\
    trace wf = trace w ++
               EvGetArrayLength arguments ::
               convert_trace env (java w) arguments 0 jps ++
               [EvLog ANDROID_LOG_DEBUG TAG "Starting Embedded Node.js...";
                EvStart argc argv mem;
                EvLog ANDROID_LOG_DEBUG TAG ("Node.js exited with code: " ++ fmt_d r)] /\
    (forall b o, heap w !! b = Some o -> mem !! b = Some o) /\
    (forall i, (i < trip_count argc)%nat ->
       exists b o, load_ptr mem argv i = Some (Ptr b o) /\
                   heap w !! b = None /\ is_Some (mem !! b) /\ heap wf !! b = None).
Proof.
  intros Hdone.
  destruct (startNode_done env node_Start sso_capacity grow _ _ _ _ _ Hdone) as [bss Hconv].
  destruct (startNode_spec env node_Start sso_capacity grow this arguments w bss Hconv)
    as (args & argv & w1 & jps & _ & _ & Ht & Hmar & Hrun).
  cbn zeta in *. rewrite Hrun in Hdone. injection Hdone as <- <-.
  cbn [java heap runtime trace].
  split; [reflexivity |]. split; [reflexivity |].
  exists (v_data argv), (heap w1), jps.
  split; [reflexivity |]. split; [reflexivity |]. split; [| split].
  - rewrite Ht, <- app_assoc. reflexivity.
  - intros b o. apply (marshalled_extends sso_capacity _ _ _ _ _ _ _ Hmar).
  - intros i Hi.
    destruct (lookup_lt_is_Some_2 bss i) as [bs Hbs].
    { rewrite (convertible_length env _ _ _ Hconv). exact Hi. }
    destruct (marshalled_view sso_capacity _ _ _ _ _ _ _ Hmar Hbs)
      as (b & o & Hp & _ & Hb & Hfresh).
    exists b, o. repeat (split; [assumption |]). split; [| assumption].
    unfold load_bytes in Hb. destruct (heap w1 !! b); [eauto | discriminate].
Qed.

(** C8.  When marshalling has completed and [node::Start] is entered,
    slot [i] of [argv] holds, for every [i < argc], the pointer that
    [args[i].c_str()] yields in the memory of that moment, and the C
    string it points to is the text of element [i]: the memory the runtime
    is entered with is the one the second loop left, in which [args] is
    complete and was not touched since [argv] was built. *)
Theorem C8_argv_points_into_args (this arguments : jobject) (w : BW)
    (argc : int) (args argv : vector) (w1 : BW) :
  marshal env sso_capacity grow arguments w = Done (argc, args, argv) w1 ->
  (exists pre post r wf,
     bridge this arguments w = Done r wf /\
     trace wf = pre ++ EvStart argc (v_data argv) (heap w1) :: post) /\
  forall i, (i < Z.to_nat (Int32.signed argc))%nat ->
    exists p bs,
      load_ptr (heap w1) (v_data argv) i = Some p /\
      c_str_ptr (heap w1) args i = Some p /\
      load_cstr (heap w1) p = Some bs /\
      text env (java w) arguments i = Some bs.
Proof.
  intros Hdone.
  destruct (marshal_done env sso_capacity grow _ _ _ _ Hdone) as [bss Hconv].
  destruct (startNode_spec env node_Start sso_capacity grow this arguments w bss Hconv)
    as (args' & argv' & w1' & jps & Hm & _ & Ht & Hmar & Hrun).
  cbn zeta in *. rewrite Hm in Hdone. injection Hdone as <- <- <- <-.
  split.
  - eexists (trace w1' ++ [EvLog ANDROID_LOG_DEBUG TAG "Starting Embedded Node.js..."]), _, _, _.
    split; [exact Hrun |]. cbn [trace]. rewrite <- app_assoc. reflexivity.
  - intros i Hi.
    destruct (lookup_lt_is_Some_2 bss i) as [bs Hbs].
    { pose proof (convertible_argc env _ _ _ Hconv). lia. }
    destruct (marshalled_view sso_capacity _ _ _ _ _ _ _ Hmar Hbs)
      as (b & o & Hp & Hc & Hb & _).
    exists (Ptr b o), bs. repeat (split; [assumption |]). split.
    + apply load_cstr_terminated; [assumption |].
      eapply convertible_NUL_free; eassumption.
    + eapply convertible_text; eassumption.
Qed.

(** C9.  The pointer array handed to [node::Start] has exactly [argc]
    entries and no terminating null entry: there is no slot [argc].  For
    [argc = 0] the data pointer handed over is the null pointer. *)
Theorem C9_argv_without_sentinel (this arguments : jobject) (w : BW)
    (argc : int) (args argv : vector) (w1 : BW) :
  marshal env sso_capacity grow arguments w = Done (argc, args, argv) w1 ->
  (exists pre post r wf,
     bridge this arguments w = Done r wf /\
     trace wf = pre ++ EvStart argc (v_data argv) (heap w1) :: post) /\
  (exists ps,
     vector_slots (heap w1) argv = Some (map CPtr ps) /\
     Z.of_nat (length ps) = Int32.signed argc) /\
  load_ptr (heap w1) (v_data argv) (Z.to_nat (Int32.signed argc)) = None /\
  (Int32.signed argc = 0 -> v_data argv = NULL).
Proof.
  intros Hdone.
  destruct (marshal_done env sso_capacity grow _ _ _ _ Hdone) as [bss Hconv].
  destruct (startNode_spec env node_Start sso_capacity grow this arguments w bss Hconv)
    as (args' & argv' & w1' & jps & Hm & _ & Ht & Hmar & Hrun).
  cbn zeta in *. rewrite Hm in Hdone. injection Hdone as <- <- <- <-.
  destruct (marshalled_size sso_capacity _ _ _ _ _ Hmar) as (ps & Hs & Hlen).
  pose proof (convertible_argc env _ _ _ Hconv) as Hargc.
  split; [| split; [| split]].
  - eexists (trace w1' ++ [EvLog ANDROID_LOG_DEBUG TAG "Starting Embedded Node.js..."]), _, _, _.
    split; [exact Hrun |]. cbn [trace]. rewrite <- app_assoc. reflexivity.
  - exists ps. split; [exact Hs | lia].
  - rewrite <- Hargc, Nat2Z.id, <- Hlen.
    unfold load_ptr, vector_slots in *.
    destruct (v_data argv') as [|b [|o]]; try reflexivity.
    destruct (heap w1' !! b) as [[|l']|]; try discriminate. injection Hs as ->.
    change (map CPtr ps) with (CPtr <$> ps). rewrite list_lookup_fmap.
    rewrite (lookup_ge_None_2 ps (length ps)) by lia. reflexivity.
  - intros Hzero. destruct Hmar as (_ & _ & _ & _ & _ & _ & _ & Hempty).
    destruct bss; [| cbn in Hargc; lia].
    destruct Hempty as [_ ->]; reflexivity.
Qed.

(** C10.  Two calls on arrays of equal length whose elements have equal
    texts yield equal results, whatever the Java heap, the native heap,
    the runtime state and the history they start from, provided that the
    result of [node::Start] is determined by [argc] and the strings behind
    [argv]. *)
Theorem C10_deterministic (env' : JNIEnv J) (this this' arguments arguments' : jobject)
    (w w' : BW) :
  (forall argc p1 m1 r1 p2 m2 r2,
     argv_strings m1 p1 (trip_count argc) = argv_strings m2 p2 (trip_count argc) ->
     (node_Start argc p1 m1 r1).1 = (node_Start argc p2 m2 r2).1) ->
  GetArrayLength env (java w) arguments = GetArrayLength env' (java w') arguments' ->
  texts env (java w) arguments = texts env' (java w') arguments' ->
  result_of (bridge this arguments w) =
  result_of (startNode env' node_Start sso_capacity grow this' arguments' w').
Proof.
  intros Hext Hlen Htexts.
  destruct (convertible_dec env (java w) arguments) as [[bss Hc]|Hnot].
  - assert (convertible env' (java w') arguments' bss) as Hc'.
    { unfold convertible. rewrite <- Htexts. exact Hc. }
    destruct (startNode_spec env node_Start sso_capacity grow this arguments w bss Hc)
      as (args & argv & w1 & jps & _ & _ & _ & Hmar & ->).
    destruct (startNode_spec env' node_Start sso_capacity grow this' arguments' w' bss Hc')
      as (args' & argv' & w1' & jps' & _ & _ & _ & Hmar' & ->).
    cbn [result_of]. f_equal. rewrite <- Hlen. apply Hext.
    rewrite <- (convertible_length env _ _ _ Hc).
    rewrite (marshalled_strings env sso_capacity _ _ _ _ _ _ _ Hc Hmar).
    rewrite (marshalled_strings env' sso_capacity _ _ _ _ _ _ _ Hc' Hmar').
    reflexivity.
  - destruct (startNode_undefined env node_Start sso_capacity grow this arguments w Hnot)
      as (u & evs & -> & _).
    destruct (startNode_undefined env' node_Start sso_capacity grow this' arguments' w')
      as (u' & evs' & -> & _); [| reflexivity].
    intros [bss Hc']. apply Hnot. exists bss.
    unfold convertible in *. rewrite Htexts. exact Hc'.
Qed.

End Claims.

(** * Further properties of the native method *)

Section Further.

Context {J R : Type}.
Variable env : JNIEnv J.
Variable node_Start : int -> ptr -> memory -> R -> int * R.
Variable sso_capacity : nat.
Variable grow : nat -> nat.
Abbreviation FW := (World J R).

Abbreviation method := (startNode env node_Start sso_capacity grow).

Lemma fetched_convert_trace (j : J) (arguments : jobject) (ps : list ptr) :
  forall i,
    Z.of_nat (i + length ps) <= Int32.max_signed + 1 ->
    omap fetched (convert_trace env j arguments i ps)
    = map (fun k => (arguments, Z.of_nat k)) (seq i (length ps)).
Proof.
  induction ps as [|p ps IH]; intros i Hi; [reflexivity |].
  cbn [convert_trace length seq map]. cbn [omap list_omap fetched] in *.
  cbn in Hi. rewrite signed_repr_nat by lia. cbn.
  rewrite IH by (cbn; lia). reflexivity.
Qed.

Lemma convert_trace_counts (j : J) (arguments : jobject) (ps : list ptr) :
  forall i,
    length (List.filter is_get_chars (convert_trace env j arguments i ps)) = length ps /\
    length (List.filter is_release_chars (convert_trace env j arguments i ps)) = length ps.
Proof.
  induction ps as [|p ps IH]; intros i; cbn; [auto |].
  destruct (IH (S i)) as [-> ->]. auto.
Qed.

(** The first loop up to the first element that cannot be retrieved:
    the run stops in the round of that element, with [args] holding the
    texts converted so far. *)
Lemma convert_rounds_stops (arguments : jobject) (w : FW) (n f : nat)
    (bss : list (list byte)) :
  (f < n)%nat ->
  length bss = f ->
  (forall i bs, bss !! i = Some bs -> text env (java w) arguments i = Some bs) ->
  text env (java w) arguments f = None ->
  exists w' args l jps,
    rounds n Int32.zero (convert_body env sso_capacity grow arguments) vector_empty w
      = Undefined w' /\
    java w' = java w /\ runtime w' = runtime w /\
    length jps = f /\
    trace w' = trace w ++ convert_trace env (java w) arguments 0 jps ++
               [EvGetObjectArrayElement arguments (Int32.repr (Z.of_nat f));
                EvGetStringUTFChars (element env (java w) arguments f)] /\
    args_state sso_capacity (heap w) (heap w') args l bss.
Proof.
  intros Hf Hlen Htexts Hnone.
  destruct (rounds_undefined (convert_inv env sso_capacity arguments w bss)
              (fun w' => java w' = java w /\ runtime w' = runtime w /\
                 exists args l jps, length jps = f /\
                 trace w' = trace w ++ convert_trace env (java w) arguments 0 jps ++
                   [EvGetObjectArrayElement arguments (Int32.repr (Z.of_nat f));
                    EvGetStringUTFChars (element env (java w) arguments f)] /\
                 args_state sso_capacity (heap w) (heap w') args l bss)
              (convert_body env sso_capacity grow arguments) n 0 f vector_empty w)
    as (w' & Hrun & Hj & Hr & args & l & jps & Hjps & Htr & Hst).
  - lia.
  - apply convert_inv_init.
  - intros k args w1 Hk. apply convert_inv_step; [assumption | lia].
  - intros args w1 (Hj & Hr & l & jps & Hjps & Htr & Hst).
    eexists. split.
    + apply convert_body_undefined. rewrite Hj. assumption.
    + cbn [java runtime heap trace]. split; [assumption |]. split; [assumption |].
      exists args, l, jps. split; [assumption |]. split.
      * rewrite Htr, Hj, <- app_assoc. reflexivity.
      * rewrite <- Hlen, firstn_all in Hst. exact Hst.
  - exists w', args, l, jps. auto 10.
Qed.

(** The method up to the first element that cannot be retrieved. *)
Lemma startNode_stops (this arguments : jobject) (w : FW) (f : nat)
    (bss : list (list byte)) :
  (f < trip_count (GetArrayLength env (java w) arguments))%nat ->
  length bss = f ->
  (forall i bs, bss !! i = Some bs -> text env (java w) arguments i = Some bs) ->
  text env (java w) arguments f = None ->
  exists w' args l jps,
    method this arguments w = Undefined w' /\
    java w' = java w /\ runtime w' = runtime w /\
    length jps = f /\
    trace w' = trace w ++ EvGetArrayLength arguments ::
               convert_trace env (java w) arguments 0 jps ++
               [EvGetObjectArrayElement arguments (Int32.repr (Z.of_nat f));
                EvGetStringUTFChars (element env (java w) arguments f)] /\
    args_state sso_capacity (heap w) (heap w') args l bss.
Proof.
  intros Hf Hlen Htexts Hnone.
  unfold Java_com_landseek_amphibian_service_AmphibianNative_startNode,
    marshal, JNI_GetArrayLength, bind, emit.
  cbn [java heap trace runtime]. rewrite for_loop_rounds.
  set (w0 := mkWorld _ _ _ _).
  destruct (convert_rounds_stops arguments w0 _ f bss Hf Hlen Htexts Hnone)
    as (w' & args & l & jps & -> & Hj & Hr & Hjps & Htr & Hst).
  exists w', args, l, jps. split; [reflexivity |].
  subst w0. cbn [java heap trace runtime] in *.
  repeat (split; [assumption |]). split; [| assumption].
  rewrite Htr, <- app_assoc. reflexivity.
Qed.

(** Either every element can be retrieved, or there is a first one that
    cannot. *)
Lemma first_failure (j : J) (arguments : jobject) :
  (exists bss, convertible env j arguments bss) \/
  (exists f bss,
     (f < trip_count (GetArrayLength env j arguments))%nat /\
     length bss = f /\
     (forall i bs, bss !! i = Some bs -> text env j arguments i = Some bs) /\
     text env j arguments f = None).
Proof.
  destruct (options_cases (texts env j arguments))
    as [[bss Hbss]|(f & bss & Hlen & Hf & Hl & Hnone)].
  - left. exists bss. exact Hbss.
  - right. exists f, bss. unfold texts in *. rewrite length_map, length_seq in Hf.
    repeat (split; [assumption |]). split.
    + intros i bs Hi. apply Hl, lookup_map_seq in Hi as [_ Hi]. exact Hi.
    + apply lookup_map_seq in Hnone as [_ Hnone]. exact Hnone.
Qed.

(** X1.  Whether a call returns or runs into undefined behaviour, the
    elements it has fetched are those of the array it was given, at the
    indices 0, 1, 2, ... in this order, each once, and never at an index
    that is not below the length JNI reported; a call that returns has
    fetched every element. *)
Theorem X1_fetches_in_order_and_in_bounds (this arguments : jobject) (w : FW) :
  let argc := GetArrayLength env (java w) arguments in
  let o := method this arguments w in
  exists evs m,
    trace (final_world o) = trace w ++ evs /\
    omap fetched evs = map (fun k => (arguments, Z.of_nat k)) (seq 0 m) /\
    Z.of_nat m <= Int32.signed argc /\
    (is_Some (result_of o) -> Z.of_nat m = Int32.signed argc).
Proof.
  intros argc o. subst o.
  pose proof (trip_count_bound argc) as Hmax.
  assert (Z.of_nat (trip_count argc) = Int32.signed argc) as Hn.
  { unfold trip_count, argc. pose proof (GetArrayLength_nonneg env (java w) arguments). lia. }
  destruct (first_failure (java w) arguments)
    as [[bss Hconv]|(f & bss & Hf & Hlen & Htexts & Hnone)].
  - destruct (startNode_spec env node_Start sso_capacity grow this arguments w bss Hconv)
      as (args & argv & w1 & jps & _ & Hjps & Ht & _ & ->).
    cbn zeta. cbn [final_world result_of trace].
    pose proof (convertible_length env _ _ _ Hconv) as Hbss. fold argc in Hbss.
    eexists _, (length jps). split; [rewrite Ht, <- app_assoc; reflexivity |].
    split; [| split; [lia | intros _; lia]].
    cbn [app omap list_omap fetched]. rewrite omap_app.
    rewrite fetched_convert_trace by (cbn; lia). cbn. apply app_nil_r.
  - destruct (startNode_stops this arguments w f bss Hf Hlen Htexts Hnone)
      as (w' & args & l & jps & -> & _ & _ & Hjps & Htr & _).
    cbn [final_world result_of].
    eexists _, (S f). split; [exact Htr |].
    split; [| split; [fold argc in Hf; lia | intros [x [=]]]].
    cbn [app omap list_omap fetched]. rewrite omap_app.
    rewrite fetched_convert_trace by (cbn; fold argc in Hf; lia).
    cbn [omap list_omap fetched]. rewrite signed_repr_nat by (fold argc in Hf; lia).
    rewrite Hjps. replace (S f) with (f + 1)%nat by lia. rewrite seq_app, map_app.
    reflexivity.
Qed.

(** The texts of the elements before the first one that cannot be
    retrieved. *)
Lemma texts_before (j : J) (arguments : jobject) (f : nat) :
  (forall i, (i < f)%nat -> is_Some (text env j arguments i)) ->
  exists bss, length bss = f /\
    forall i bs, bss !! i = Some bs -> text env j arguments i = Some bs.
Proof.
  induction f as [|f IH]; intros Hall.
  - exists []. split; [reflexivity |]. intros i bs Hi. rewrite lookup_nil in Hi. discriminate.
  - destruct IH as (bss & Hlen & Hbss); [intros i Hi; apply Hall; lia |].
    destruct (Hall f) as [bs Hbs]; [lia |].
    exists (bss ++ [bs]). split; [rewrite length_app; cbn; lia |].
    intros i x Hi. apply lookup_app_Some in Hi as [Hi|[Hge Hi]]; [auto |].
    rewrite Hlen in *. apply list_lookup_singleton_Some in Hi as [Hi <-].
    replace i with f by lia. assumption.
Qed.

(** X2.  When element [f] is the first whose characters cannot be
    retrieved, the call stops in round [f] of the first loop, at the
    construction of the string: the Java heap and the runtime are as at
    entry, the [f] buffers JNI handed out before have all been released,
    every block that was live at entry is unchanged, and what memory holds
    besides is exactly what [args] owns, with the [f] texts converted so
    far in it; none of it is released. *)
Theorem X2_state_at_first_failure (this arguments : jobject) (w : FW) (f : nat) :
  (f < trip_count (GetArrayLength env (java w) arguments))%nat ->
  (forall i, (i < f)%nat -> is_Some (text env (java w) arguments i)) ->
  text env (java w) arguments f = None ->
  exists w' evs args l bss,
    method this arguments w = Undefined w' /\
    java w' = java w /\ runtime w' = runtime w /\
    trace w' = trace w ++ evs /\
    length (List.filter is_get_chars evs) = S f /\
    length (List.filter is_release_chars evs) = f /\
    (forall b o, heap w !! b = Some o -> heap w' !! b = Some o) /\
    (forall b, is_Some (heap w' !! b) ->
       is_Some (heap w !! b) \/ b ∈ storage args ++ long_blocks l) /\
    vector_slots (heap w') args = Some l /\
    length bss = f /\
    (forall i bs, bss !! i = Some bs -> text env (java w) arguments i = Some bs) /\
    Forall2 (str_holds sso_capacity (heap w')) l bss.
Proof.
  intros Hf Hall Hnone.
  destruct (texts_before (java w) arguments f Hall) as (bss & Hlen & Htexts).
  destruct (startNode_stops this arguments w f bss Hf Hlen Htexts Hnone)
    as (w' & args & l & jps & Hrun & Hj & Hr & Hjps & Htr & Hst).
  eexists w', _, args, l, bss.
  split; [exact Hrun |]. split; [exact Hj |]. split; [exact Hr |].
  split; [exact Htr |].
  destruct (convert_trace_counts (java w) arguments jps 0) as [Hg Hrel].
  split; [| split; [| split; [| split; [| split; [| split; [| split]]]]]].
  - cbn [List.filter is_get_chars]. rewrite List.filter_app, length_app, Hg. cbn. lia.
  - cbn [List.filter is_release_chars]. rewrite List.filter_app, length_app, Hrel. cbn. lia.
  - intros b o Hb. rewrite (args_frame _ _ _ _ _ _ Hst); [assumption |].
    intros Hin. apply (args_fresh _ _ _ _ _ _ Hst) in Hin. congruence.
  - intros b Hb. destruct (decide (b ∈ storage args ++ long_blocks l)) as [Hin|Hnin].
    + right. assumption.
    + left. rewrite <- (args_frame _ _ _ _ _ _ Hst b Hnin). assumption.
  - apply (args_slots _ _ _ _ _ _ Hst).
  - assumption.
  - assumption.
  - apply (args_texts _ _ _ _ _ _ Hst).
Qed.

(** What a completed marshalling leaves, in terms of the entry heap. *)
Lemma marshal_marshalled (arguments : jobject) (w : FW) (argc : int)
    (args argv : vector) (w1 : FW) :
  marshal env sso_capacity grow arguments w = Done (argc, args, argv) w1 ->
  exists bss, convertible env (java w) arguments bss /\
              argc = GetArrayLength env (java w) arguments /\
              marshalled sso_capacity (heap w) (heap w1) args argv bss.
Proof.
  intros Hm.
  destruct (marshal_done env sso_capacity grow _ _ _ _ Hm) as [bss Hconv].
  destruct (marshal_spec env sso_capacity grow arguments w bss Hconv)
    as (args' & argv' & w1' & jps & Hm' & _ & _ & _ & _ & Hmar).
  rewrite Hm' in Hm. injection Hm as <- <- <- <-. eauto.
Qed.



Lemma long_blocks_NoDup_lookup (l : list cell) (i k : nat) (b : block) :
  NoDup (long_blocks l) ->
  l !! i = Some (CStr (Long b)) -> l !! k = Some (CStr (Long b)) -> i = k.
Proof.
  revert i k. induction l as [|c l IH]; intros i k Hnd Hi Hk.
  - rewrite lookup_nil in Hi. discriminate.
  - destruct i as [|i], k as [|k]; cbn in Hi, Hk.
    + reflexivity.
    + injection Hi as ->. cbn in Hnd. apply NoDup_cons in Hnd as [Hnot _].
      apply long_blocks_lookup in Hk. contradiction.
    + injection Hk as ->. cbn in Hnd. apply NoDup_cons in Hnd as [Hnot _].
      apply long_blocks_lookup in Hi. contradiction.
    + f_equal. apply IH; [| assumption | assumption].
      destruct c as [[s|b']|p]; cbn in Hnd; [assumption | | assumption].
      apply NoDup_cons in Hnd as [_ Hnd]. assumption.
Qed.

(** X4.  The pointers in [argv] are pairwise distinct: every argument has
    a buffer of its own, also when two arguments have the same text, so
    that the runtime may rewrite one argument in place without changing
    another. *)
Theorem X4_argv_pointers_distinct (arguments : jobject) (w : FW) (argc : int)
    (args argv : vector) (w1 : FW) (i k : nat) (p q : ptr) :
  marshal env sso_capacity grow arguments w = Done (argc, args, argv) w1 ->
  load_ptr (heap w1) (v_data argv) i = Some p ->
  load_ptr (heap w1) (v_data argv) k = Some q ->
  i <> k ->
  p <> q.
Proof.
  intros Hm Hp Hq Hik.
  destruct (marshal_marshalled _ _ _ _ _ _ Hm)
    as (bss & Hconv & -> & h1 & l & ps & Hargs & Hargv & Hlen & Hptrs & _).
  pose proof (argv_slots _ _ _ _ Hargv) as Hs.
  assert (forall n x, load_ptr (heap w1) (v_data argv) n = Some x -> ps !! n = Some x) as Hload.
  { intros n x Hx. unfold load_ptr, vector_slots in *.
    destruct (v_data argv) as [|b [|o]]; try discriminate.
    destruct (heap w1 !! b) as [[|l']|]; try discriminate.
    injection Hs as ->. change (map CPtr ps) with (CPtr <$> ps) in Hx.
    rewrite list_lookup_fmap in Hx. destruct (ps !! n); cbn in Hx; congruence. }
  apply Hload, Hptrs in Hp. apply Hload, Hptrs in Hq.
  pose proof (args_slots _ _ _ _ _ _ Hargs) as Hl.
  pose proof (args_nodup _ _ _ _ _ _ Hargs) as Hnd.
  unfold c_str_ptr in Hp, Hq. rewrite Hl in Hp, Hq.
  destruct (v_data args) as [|b o] eqn:Hv; [discriminate |].
  assert (b ∈ storage args) as Hb by (apply storage_spec; eauto).
  apply NoDup_app in Hnd as (_ & Hdisj & Hnd).
  destruct (l !! i) as [[[s|b1]|?]|] eqn:Hi; try discriminate;
    destruct (l !! k) as [[[s'|b2]|?]|] eqn:Hk; try discriminate;
    injection Hp as <-; injection Hq as <-; intros [=].
  - contradiction.
  - subst b2. apply long_blocks_lookup in Hk. exact (Hdisj b Hb Hk).
  - subst b1. apply long_blocks_lookup in Hi. exact (Hdisj b Hb Hi).
  - subst b2. apply Hik. eapply long_blocks_NoDup_lookup; eassumption.
Qed.

(** [%d] can be read back: parsing the decimal it prints gives the
    number. *)
Lemma fmt_d_parse (n : int) :
  option_map Z.of_int (NilZero.int_of_string (fmt_d n)) = Some (Int32.signed n).
Proof.
  unfold fmt_d. rewrite NilZero.isi.
  - cbn. f_equal. apply DecimalZ.of_to.
  - destruct (Int32.signed n); cbn; [discriminate | | discriminate].
    intros [= H]. exact (DecimalPos.Unsigned.to_uint_nonnil _ H).
  - destruct (Int32.signed n); cbn; [discriminate | discriminate |].
    intros [= H]. exact (DecimalPos.Unsigned.to_uint_nonnil _ H).
Qed.

(** X5.  A call that has returned can be made again on the same array,
    from the world the first call left: the second call returns as well,
    it hands the runtime the same number of arguments and the same
    strings, it runs [node::Start] on the runtime state the first call
    left, and it leaves the Java heap and the native memory as they were
    before the first call. *)
Theorem X5_call_can_be_repeated (this this' arguments : jobject) (w : FW)
    (r : int) (wf : FW) :
  method this arguments w = Done r wf ->
  exists bss r' wf' argv' mem' jps',
    let argc := GetArrayLength env (java w) arguments in
    convertible env (java w) arguments bss /\
    method this' arguments wf = Done r' wf' /\
    java wf' = java w /\
    heap wf' = heap w /\
    node_Start argc argv' mem' (runtime wf) = (r', runtime wf') /\
    argv_strings mem' argv' (trip_count argc) = map Some bss /\
    trace wf' = trace wf ++
                EvGetArrayLength arguments ::
                convert_trace env (java w) arguments 0 jps' ++
                [EvLog ANDROID_LOG_DEBUG TAG "Starting Embedded Node.js...";
                 EvStart argc argv' mem';
                 EvLog ANDROID_LOG_DEBUG TAG ("Node.js exited with code: " ++ fmt_d r')].
Proof.
  intros Hdone.
  destruct (startNode_done env node_Start sso_capacity grow _ _ _ _ _ Hdone) as [bss Hconv].
  destruct (startNode_spec env node_Start sso_capacity grow this arguments w bss Hconv)
    as (args & argv & w1 & jps & _ & _ & _ & _ & Hrun).
  cbn zeta in Hrun. rewrite Hrun in Hdone. injection Hdone as <- <-. clear Hrun.
  set (wf := mkWorld _ _ _ _).
  assert (java wf = java w) as Hj by reflexivity.
  assert (heap wf = heap w) as Hh by reflexivity.
  clearbody wf.
  assert (convertible env (java wf) arguments bss) as Hconv' by (rewrite Hj; exact Hconv).
  destruct (startNode_spec env node_Start sso_capacity grow this' arguments wf bss Hconv')
    as (args' & argv' & w1' & jps' & _ & _ & Ht & Hmar & Hrun).
  cbn zeta in Hrun. rewrite Hj in *.
  destruct (node_Start (GetArrayLength env (java w) arguments) (v_data argv') (heap w1')
              (runtime wf)) as [r' rt'] eqn:Hstart.
  cbn [fst snd] in Hrun.
  eexists bss, r', _, (v_data argv'), (heap w1'), jps'. cbn zeta.
  split; [exact Hconv |]. split; [exact Hrun |]. cbn [java heap runtime trace].
  split; [reflexivity |]. split; [exact Hh |]. split; [exact Hstart |]. split.
  - rewrite <- (convertible_length env _ _ _ Hconv).
    eapply (marshalled_strings env); eassumption.
  - rewrite Ht, <- app_assoc. reflexivity.
Qed.

(** X6.  The last event of a call that returns is the log line with the
    exit code, and the code can be read back from it: parsing the decimal
    after ["Node.js exited with code: "] gives the very integer the call
    returns, for every 32-bit value, negative ones included. *)
Theorem X6_exit_code_read_back (this arguments : jobject) (w : FW) (r : int) (wf : FW) :
  method this arguments w = Done r wf ->
  exists pre s,
    trace wf = pre ++ [EvLog ANDROID_LOG_DEBUG TAG ("Node.js exited with code: " ++ s)] /\
    option_map Z.of_int (NilZero.int_of_string s) = Some (Int32.signed r).
Proof.
  intros Hdone.
  destruct (startNode_done env node_Start sso_capacity grow _ _ _ _ _ Hdone) as [bss Hconv].
  destruct (startNode_spec env node_Start sso_capacity grow this arguments w bss Hconv)
    as (args & argv & w1 & jps & _ & _ & _ & _ & Hrun).
  cbn zeta in Hrun. rewrite Hrun in Hdone. injection Hdone as <- <-.
  cbn [trace]. eexists (_ ++ [_; _]), _. split.
  - rewrite <- app_assoc. reflexivity.
  - apply fmt_d_parse.
Qed.

End Further.

(** * The claims on concrete calls *)

Import SampleJVM.

(** The bridge on the array at reference 1 of a Java heap, in a fresh
    world. *)
Definition call (start : int -> ptr -> memory -> nat -> int * nat) (j : jheap) :=
  startNode env start sso double jnull (jref 1) (world0 j).

Definition node_script_texts : list (list byte) :=
  [list_byte_of_string "node"; script_path].

Definition flag_value_texts : list (list byte) :=
  [list_byte_of_string "--flag"; list_byte_of_string "value"].

(** [%d] prints a signed decimal; [int] wraps around at 32 bits. *)
Example fmt_d_samples :
  fmt_d Int32.zero = "0"%string /\
  fmt_d (Int32.repr (-7)) = "-7"%string /\
  fmt_d (Int32.repr 2147483648) = "-2147483648"%string.
Proof. repeat split; vm_compute; reflexivity. Qed.

(** A loop over a negative length makes no round: here neither an element
    fetch nor any other event. *)
Example negative_length_no_round :
  trip_count (Int32.repr (-3)) = 0%nat /\
  for_loop (Int32.repr (-3)) Int32.zero (convert_body env sso double (jref 1))
    vector_empty (world0 node_script)
  = Done vector_empty (world0 node_script).
Proof. split; vm_compute; reflexivity. Qed.

(** Why [argv] is built in a second pass: a pointer taken from [c_str()]
    of a short string dangles as soon as [push_back] reallocates the
    vector that holds the string. *)
Example reallocation_invalidates_c_str :
  exists v1 w1 p v2 w2,
    push_back double vector_empty (CStr (Short (list_byte_of_string "node")))
      (world0 no_arguments) = Done v1 w1 /\
    c_str v1 Int32.zero w1 = Done p w1 /\
    load_cstr (heap w1) p = Some (list_byte_of_string "node") /\
    push_back double v1 (CStr (Short (list_byte_of_string "-e"))) w1 = Done v2 w2 /\
    load_cstr (heap w2) p = None.
Proof.
  eexists _, _, _, _, _.
  split; [vm_compute; reflexivity |].
  split; [vm_compute; reflexivity |].
  split; [vm_compute; reflexivity |].
  split; vm_compute; reflexivity.
Qed.

(** C1 on the start of a script: the runtime answers 2, and 2 is
    returned. *)
Lemma C1_result_passed_through_witness :
  convertible env node_script (jref 1) node_script_texts /\
  exists argv mem evs wf,
    call count_Start node_script
      = Done (count_Start (GetArrayLength env node_script (jref 1)) argv mem 0%nat).1 wf /\
    trace wf = [] ++ evs /\
    List.filter is_start evs = [EvStart (GetArrayLength env node_script (jref 1)) argv mem] /\
    runtime wf = (count_Start (GetArrayLength env node_script (jref 1)) argv mem 0%nat).2.
Proof.
  split; [vm_compute; reflexivity |].
  apply (C1_result_passed_through env count_Start sso double jnull (jref 1)
           (world0 node_script) node_script_texts).
  vm_compute. reflexivity.
Defined.

(** C1 as stated fails on an array with a null element: the call runs
    into undefined behaviour without having entered [node::Start], and
    returns nothing to its caller. *)
Lemma C1_counterexample :
  (exists w',
     call count_Start null_element = Undefined w' /\
     List.filter is_start (trace w') = []) /\
  ~ exists argv mem evs wf,
      call count_Start null_element
        = Done (count_Start (GetArrayLength env null_element (jref 1)) argv mem 0%nat).1 wf /\
      trace wf = [] ++ evs /\
      List.filter is_start evs = [EvStart (GetArrayLength env null_element (jref 1)) argv mem].
Proof.
  assert (exists w', call count_Start null_element = Undefined w' /\
                     List.filter is_start (trace w') = []) as Hrun
    by (eexists; split; vm_compute; reflexivity).
  split; [exact Hrun |].
  destruct Hrun as (w' & Hrun & _).
  intros (argv & mem & evs & wf & H & _). rewrite Hrun in H. discriminate.
Qed.

(** C2 on the array [["--flag", "value"]]. *)
Lemma C2_marshalled_pointer_array_witness :
  convertible env flag_value (jref 1) flag_value_texts /\
  exists args argv w1 ps,
    marshal env sso double (jref 1) (world0 flag_value)
      = Done (GetArrayLength env flag_value (jref 1), args, argv) w1 /\
    vector_slots (heap w1) argv = Some (map CPtr ps) /\
    length ps = 2%nat /\
    Z.of_nat (length ps) = Int32.signed (GetArrayLength env flag_value (jref 1)) /\
    forall i bs, flag_value_texts !! i = Some bs ->
      exists p,
        ps !! i = Some p /\
        load_ptr (heap w1) (v_data argv) i = Some p /\
        load_bytes (heap w1) p = Some (bs ++ [x00]) /\
        load_cstr (heap w1) p = Some bs.
Proof.
  split; [vm_compute; reflexivity |].
  apply (C2_marshalled_pointer_array env sso double (jref 1) (world0 flag_value)
           flag_value_texts).
  vm_compute. reflexivity.
Defined.

(** C3 on the empty array. *)
Lemma C3_empty_array_witness :
  Int32.signed (GetArrayLength env no_arguments (jref 1)) = 0 /\
  call count_Start no_arguments
    = Done Int32.zero
        (mkWorld no_arguments 1%nat ∅
           [EvGetArrayLength (jref 1);
            EvLog ANDROID_LOG_DEBUG TAG "Starting Embedded Node.js...";
            EvStart Int32.zero NULL ∅;
            EvLog ANDROID_LOG_DEBUG TAG "Node.js exited with code: 0"]).
Proof.
  split; [vm_compute; reflexivity |].
  apply (C3_empty_array env count_Start sso double jnull (jref 1) (world0 no_arguments)).
  vm_compute. reflexivity.
Defined.

(** C5 on the start of a script. *)
Lemma C5_two_log_lines_witness :
  convertible env node_script (jref 1) node_script_texts /\
  exists argv mem pre wf,
    let argc := GetArrayLength env node_script (jref 1) in
    let r := (count_Start argc argv mem 0%nat).1 in
    call count_Start node_script = Done r wf /\
    trace wf = [] ++ pre ++
               [EvLog ANDROID_LOG_DEBUG TAG "Starting Embedded Node.js...";
                EvStart argc argv mem;
                EvLog ANDROID_LOG_DEBUG TAG ("Node.js exited with code: " ++ fmt_d r)] /\
    List.filter is_log pre = [] /\
    List.filter is_start pre = [] /\
    (Int32.signed r = 0 ->
     "Node.js exited with code: " ++ fmt_d r = "Node.js exited with code: 0")%string.
Proof.
  split; [vm_compute; reflexivity |].
  apply (C5_two_log_lines env count_Start sso double jnull (jref 1)
           (world0 node_script) node_script_texts).
  vm_compute. reflexivity.
Defined.

(** C5 as stated fails on an array with a null element: the call runs
    into undefined behaviour before its first log line. *)
Lemma C5_counterexample :
  (exists w',
     call count_Start null_element = Undefined w' /\
     List.filter is_log (trace w') = []) /\
  ~ exists r wf,
      call count_Start null_element = Done r wf /\
      length (List.filter is_log (trace wf)) = 2%nat.
Proof.
  assert (exists w', call count_Start null_element = Undefined w' /\
                     List.filter is_log (trace w') = []) as Hrun
    by (eexists; split; vm_compute; reflexivity).
  split; [exact Hrun |].
  destruct Hrun as (w' & Hrun & _).
  intros (r & wf & H & _). rewrite Hrun in H. discriminate.
Qed.

(** C6 as stated fails on an array with a null element: the length is 2,
    the first loop stops in its second round, the second loop is not
    reached, and [node::Start] is not entered. *)
Lemma C6_counterexample :
  Int32.signed (GetArrayLength env null_element (jref 1)) = 2 /\
  (exists w',
     marshal env sso double (jref 1) (world0 null_element) = Undefined w' /\
     trace w' = [EvGetArrayLength (jref 1);
                 EvGetObjectArrayElement (jref 1) (Int32.repr 0);
                 EvGetStringUTFChars (jref 2);
                 EvReleaseStringUTFChars (jref 2) (Ptr 1%positive 0);
                 EvGetObjectArrayElement (jref 1) (Int32.repr 1);
                 EvGetStringUTFChars jnull]) /\
  ~ exists r wf,
      call count_Start null_element = Done r wf /\
      List.filter is_start (trace wf) <> [].
Proof.
  split; [vm_compute; reflexivity |].
  split; [eexists; split; vm_compute; reflexivity |].
  assert (exists w', call count_Start null_element = Undefined w') as (w' & Hrun)
    by (eexists; vm_compute; reflexivity).
  intros (r & wf & H & _). rewrite Hrun in H. discriminate.
Qed.

(** C7 on the start of a script. *)
Lemma C7_no_lasting_effects_witness :
  exists r wf,
    call count_Start node_script = Done r wf /\
    java wf = node_script /\
    heap wf = ∅ /\
    exists argv mem jps,
      let argc := GetArrayLength env node_script (jref 1) in
      let res := count_Start argc argv mem 0%nat in
      r = res.1 /\
      runtime wf = res.2 /\
      trace wf = [] ++
                 EvGetArrayLength (jref 1) ::
                 convert_trace env node_script (jref 1) 0 jps ++
                 [EvLog ANDROID_LOG_DEBUG TAG "Starting Embedded Node.js...";
                  EvStart argc argv mem;
                  EvLog ANDROID_LOG_DEBUG TAG ("Node.js exited with code: " ++ fmt_d r)] /\
      (forall b o, (∅ : memory) !! b = Some o -> mem !! b = Some o) /\
      (forall i, (i < trip_count argc)%nat ->
         exists b o, load_ptr mem argv i = Some (Ptr b o) /\
                     (∅ : memory) !! b = None /\ is_Some (mem !! b) /\ heap wf !! b = None).
Proof.
  eexists _, _. split; [vm_compute; reflexivity |].
  apply (C7_no_lasting_effects env count_Start sso double jnull (jref 1) (world0 node_script)).
  vm_compute. reflexivity.
Defined.

(** C8 on the start of a script. *)
Lemma C8_argv_points_into_args_witness :
  exists argc args argv w1,
    marshal env sso double (jref 1) (world0 node_script) = Done (argc, args, argv) w1 /\
    (exists pre post r wf,
       call count_Start node_script = Done r wf /\
       trace wf = pre ++ EvStart argc (v_data argv) (heap w1) :: post) /\
    forall i, (i < Z.to_nat (Int32.signed argc))%nat ->
      exists p bs,
        load_ptr (heap w1) (v_data argv) i = Some p /\
        c_str_ptr (heap w1) args i = Some p /\
        load_cstr (heap w1) p = Some bs /\
        text env node_script (jref 1) i = Some bs.
Proof.
  eexists _, _, _, _. split; [vm_compute; reflexivity |].
  apply (C8_argv_points_into_args env count_Start sso double jnull (jref 1)
           (world0 node_script)).
  vm_compute. reflexivity.
Defined.

(** C9 on the start of a script. *)
Lemma C9_argv_without_sentinel_witness :
  exists argc args argv w1,
    marshal env sso double (jref 1) (world0 node_script) = Done (argc, args, argv) w1 /\
    (exists pre post r wf,
       call count_Start node_script = Done r wf /\
       trace wf = pre ++ EvStart argc (v_data argv) (heap w1) :: post) /\
    (exists ps,
       vector_slots (heap w1) argv = Some (map CPtr ps) /\
       Z.of_nat (length ps) = Int32.signed argc) /\
    load_ptr (heap w1) (v_data argv) (Z.to_nat (Int32.signed argc)) = None /\
    (Int32.signed argc = 0 -> v_data argv = NULL).
Proof.
  eexists _, _, _, _. split; [vm_compute; reflexivity |].
  eapply (C9_argv_without_sentinel env count_Start sso double jnull (jref 1)
           (world0 node_script)).
  vm_compute. reflexivity.
Defined.

(** C10 on two calls with the array [["--flag", "value"]], held at
    different references, from different worlds. *)
Lemma C10_deterministic_witness :
  (forall argc p1 m1 r1 p2 m2 r2,
     argv_strings m1 p1 (trip_count argc) = argv_strings m2 p2 (trip_count argc) ->
     (length_Start argc p1 m1 r1).1 = (length_Start argc p2 m2 r2).1) /\
  GetArrayLength env flag_value (jref 1) = GetArrayLength env flag_value' (jref 7) /\
  texts env flag_value (jref 1) = texts env flag_value' (jref 7) /\
  result_of (call length_Start flag_value) =
  result_of (startNode env length_Start sso double jnull (jref 7) world1).
Proof.
  assert (forall argc p1 m1 r1 p2 m2 r2,
            argv_strings m1 p1 (trip_count argc) = argv_strings m2 p2 (trip_count argc) ->
            (length_Start argc p1 m1 r1).1 = (length_Start argc p2 m2 r2).1) as Hext.
  { intros argc p1 m1 r1 p2 m2 r2 H. unfold length_Start. cbn [fst]. rewrite H. reflexivity. }
  split; [exact Hext |].
  split; [vm_compute; reflexivity |]. split; [vm_compute; reflexivity |].
  apply (C10_deterministic env length_Start sso double env jnull jnull (jref 1) (jref 7)
           (world0 flag_value) world1 Hext).
  - vm_compute. reflexivity.
  - vm_compute. reflexivity.
Defined.

(** C4 on an array with a null element: the retrieval of element 1 fails
    and the call runs into undefined behaviour. *)
Lemma C4_no_error_path_witness :
  (1 < trip_count (GetArrayLength env null_element (jref 1)))%nat /\
  text env null_element (jref 1) 1 = None /\
  exists w' evs,
    call count_Start null_element = Undefined w' /\
    trace w' = [] ++ evs /\
    List.filter is_start evs = [] /\
    List.filter is_log evs = [].
Proof.
  split; [vm_compute; lia |]. split; [vm_compute; reflexivity |].
  apply (proj1 (C4_no_error_path env count_Start sso double jnull (jref 1)
                  (world0 null_element)) 1%nat).
  - vm_compute. lia.
  - vm_compute. reflexivity.
Defined.

(** C6 on the start of a script: the length is 2, there are two element
    fetches, and [node::Start] is entered with [argc = 2]. *)
Lemma C6_length_not_validated_witness :
  convertible env node_script (jref 1) node_script_texts /\
  exists argv mem pre post r wf,
    let argc := GetArrayLength env node_script (jref 1) in
    call count_Start node_script = Done r wf /\
    trace wf = [] ++ pre ++ EvStart argc argv mem :: post /\
    List.filter is_start pre = [] /\
    length (List.filter is_element_fetch pre)
      = Z.to_nat (Z.max (Int32.signed argc) 0).
Proof.
  split; [vm_compute; reflexivity |].
  apply (proj2 (proj2 (C6_length_not_validated env count_Start sso double jnull (jref 1)
                         (world0 node_script))) node_script_texts).
  vm_compute. reflexivity.
Defined.

(** ** The further properties on concrete calls *)

(** X2 on [String[]{"node", null}]: the call stops in the second round,
    with one buffer handed out and released, and ["node"] in [args]. *)
Lemma X2_state_at_first_failure_witness :
  (1 < trip_count (GetArrayLength env null_element (jref 1)))%nat /\
  (forall i, (i < 1)%nat -> is_Some (text env null_element (jref 1) i)) /\
  text env null_element (jref 1) 1 = None /\
  exists w' evs args l bss,
    call count_Start null_element = Undefined w' /\
    java w' = null_element /\ runtime w' = 0%nat /\
    trace w' = [] ++ evs /\
    length (List.filter is_get_chars evs) = 2%nat /\
    length (List.filter is_release_chars evs) = 1%nat /\
    (forall b o, (∅ : memory) !! b = Some o -> heap w' !! b = Some o) /\
    (forall b, is_Some (heap w' !! b) ->
       is_Some ((∅ : memory) !! b) \/ b ∈ storage args ++ long_blocks l) /\
    vector_slots (heap w') args = Some l /\
    length bss = 1%nat /\
    (forall i bs, bss !! i = Some bs -> text env null_element (jref 1) i = Some bs) /\
    Forall2 (str_holds sso (heap w')) l bss.
Proof.
  assert (forall i, (i < 1)%nat -> is_Some (text env null_element (jref 1) i)) as Hall.
  { intros i Hi. replace i with 0%nat by lia. vm_compute. eauto. }
  split; [vm_compute; lia |]. split; [exact Hall |]. split; [vm_compute; reflexivity |].
  apply (X2_state_at_first_failure env count_Start sso double jnull (jref 1)
           (world0 null_element) 1%nat).
  - vm_compute. lia.
  - exact Hall.
  - vm_compute. reflexivity.
Defined.


(** X4 on the start of a script: the program name and the script path are
    at different addresses. *)
Lemma X4_argv_pointers_distinct_witness :
  exists argc args argv w1 p q,
    marshal env sso double (jref 1) (world0 node_script) = Done (argc, args, argv) w1 /\
    load_ptr (heap w1) (v_data argv) 0 = Some p /\
    load_ptr (heap w1) (v_data argv) 1 = Some q /\
    p <> q.
Proof.
  eexists _, _, _, _, _, _. split; [vm_compute; reflexivity |].
  split; [vm_compute; reflexivity |]. split; [vm_compute; reflexivity |].
  eapply (X4_argv_pointers_distinct env sso double (jref 1) (world0 node_script)
            _ _ _ _ 0%nat 1%nat).
  - vm_compute. reflexivity.
  - vm_compute. reflexivity.
  - vm_compute. reflexivity.
  - lia.
Defined.

(** X5 on the start of a script, made twice. *)
Lemma X5_call_can_be_repeated_witness :
  exists r wf,
    call count_Start node_script = Done r wf /\
    exists bss r' wf' argv' mem' jps',
      let argc := GetArrayLength env node_script (jref 1) in
      convertible env node_script (jref 1) bss /\
      startNode env count_Start sso double jnull (jref 1) wf = Done r' wf' /\
      java wf' = node_script /\
      heap wf' = ∅ /\
      count_Start argc argv' mem' (runtime wf) = (r', runtime wf') /\
      argv_strings mem' argv' (trip_count argc) = map Some bss /\
      trace wf' = trace wf ++
                  EvGetArrayLength (jref 1) ::
                  convert_trace env node_script (jref 1) 0 jps' ++
                  [EvLog ANDROID_LOG_DEBUG TAG "Starting Embedded Node.js...";
                   EvStart argc argv' mem';
                   EvLog ANDROID_LOG_DEBUG TAG ("Node.js exited with code: " ++ fmt_d r')].
Proof.
  eexists _, _. split; [vm_compute; reflexivity |].
  eapply (X5_call_can_be_repeated env count_Start sso double jnull jnull (jref 1)
            (world0 node_script)).
  vm_compute. reflexivity.
Defined.

(** X6 on the start of a script. *)
Lemma X6_exit_code_read_back_witness :
  exists r wf,
    call count_Start node_script = Done r wf /\
    exists pre s,
      trace wf = pre ++ [EvLog ANDROID_LOG_DEBUG TAG ("Node.js exited with code: " ++ s)] /\
      option_map Z.of_int (NilZero.int_of_string s) = Some (Int32.signed r).
Proof.
  eexists _, _. split; [vm_compute; reflexivity |].
  eapply (X6_exit_code_read_back env count_Start sso double jnull (jref 1)
            (world0 node_script)).
  vm_compute. reflexivity.
Defined.
